(** * Tutorial organisation and series navigation (src/lib/tutorials.ts)

    A shallow embedding of the helper functions of [src/lib/tutorials.ts]
    and of the collection schema of [src/content/config.ts], followed by the
    properties of the Organizer ([getOrganizedTutorials]) and of the
    Navigator ([getSeriesNavigation]).

    Conventions of the embedding:
    - a JavaScript number that the code only uses as an integer (a position
      in a series, [Date.getTime()], an array index) is a [Z];
    - a JavaScript string is a [string], one character per code unit; the
      default [Array.prototype.sort] order is the code-unit order, which is
      [String.compare];
    - an optional property ([.optional()] in the schema) is an [option], [None] being
      [undefined];
    - an [async] function is the function of the value it awaits: the list
      that [await getPublishedTutorials()] yields is a parameter;
    - a call either returns or throws: [completion]. *)

From Stdlib Require Import ZArith List String Bool Lia Permutation Sorted.
From Stdlib Require Import OrderedTypeEx.
Import ListNotations.
Open Scope Z_scope.

(** ** Completions: a call returns a value or throws *)

Inductive exn : Type :=
| TypeError.  (* property read on [undefined] *)

Inductive completion (A : Type) : Type :=
| Normal (a : A)
| Throw (e : exn).
Arguments Normal {A} a.
Arguments Throw {A} e.

Definition bind {A B : Type} (c : completion A) (k : A -> completion B)
  : completion B :=
  match c with
  | Normal a => k a
  | Throw e => Throw e
  end.

Notation "x <- c ;; k" := (bind c (fun x => k))
  (at level 61, c at next level, right associativity).

(** A value that may be [null] or [undefined] besides an object. *)
Inductive nullable (A : Type) : Type :=
| Null
| Undefined
| Obj (a : A).
Arguments Null {A}.
Arguments Undefined {A}.
Arguments Obj {A} a.

(** ** Arrays *)

Module Array.
Section Ops.
Context {A : Type}.

(** [arr.length] *)
Definition length (l : list A) : Z := Z.of_nat (List.length l).

(** [arr[i]]: [None] is [undefined] (index out of range). *)
Definition get (l : list A) (i : Z) : option A :=
  if i <? 0 then None else nth_error l (Z.to_nat i).

(** [arr.find(p)] *)
Definition find (p : A -> bool) (l : list A) : option A := List.find p l.

(** [arr.findIndex(p)]: the first index whose element satisfies [p],
    [-1] when there is none. *)
Fixpoint findIndex_from (p : A -> bool) (l : list A) (i : Z) : Z :=
  match l with
  | [] => -1
  | x :: l' => if p x then i else findIndex_from p l' (i + 1)
  end.

Definition findIndex (p : A -> bool) (l : list A) : Z :=
  findIndex_from p l 0.

(** [arr.indexOf(x)] for an element type with decidable equality. *)
Definition indexOf (eqb : A -> A -> bool) (l : list A) (x : A) : Z :=
  findIndex (eqb x) l.

(** [arr.reduce(f, init)] *)
Definition reduce {B : Type} (f : B -> A -> B) (init : B) (l : list A) : B :=
  fold_left f l init.

(** [arr.sort(cmp)].  Since ES2019 the sort is stable, and for a
    consistent comparator its result is determined: the elements in
    comparator order, equal ones in their previous order.  The model is
    the stable insertion sort; [x], which precedes every element of [l] in
    the array, moves right only past elements it is strictly greater than. *)
Fixpoint insert (cmp : A -> A -> Z) (x : A) (l : list A) : list A :=
  match l with
  | [] => [x]
  | y :: l' => if 0 <? cmp x y then y :: insert cmp x l' else x :: y :: l'
  end.

Fixpoint sort (cmp : A -> A -> Z) (l : list A) : list A :=
  match l with
  | [] => []
  | x :: l' => insert cmp x (sort cmp l')
  end.

(** [arr.sort(cmp)] with a comparator that may throw: the first throw of a
    comparison ends the sort.  Every element of an array of two or more is
    compared at least once, by this and by any other sorting algorithm. *)
Fixpoint insertM (cmp : A -> A -> completion Z) (x : A) (l : list A)
  : completion (list A) :=
  match l with
  | [] => Normal [x]
  | y :: l' =>
      c <- cmp x y ;;
      if 0 <? c then (r <- insertM cmp x l' ;; Normal (y :: r))
      else Normal (x :: y :: l')
  end.

Fixpoint sortM (cmp : A -> A -> completion Z) (l : list A)
  : completion (list A) :=
  match l with
  | [] => Normal []
  | x :: l' => s <- sortM cmp l' ;; insertM cmp x s
  end.


(** [arr.filter(Boolean)] on elements that are objects or [undefined]. *)
Fixpoint filterBoolean (l : list (option A)) : list A :=
  match l with
  | [] => []
  | Some x :: l' => x :: filterBoolean l'
  | None :: l' => filterBoolean l'
  end.
End Ops.
End Array.

(** [s.startsWith(searchString)] *)
Fixpoint startsWith (s searchString : string) : bool :=
  match searchString with
  | EmptyString => true
  | String c rest =>
      match s with
      | EmptyString => false
      | String d s' => Ascii.eqb d c && startsWith s' rest
      end
  end.

(** [arr.sort()] on strings: code-unit order. *)
Definition string_cmp (a b : string) : Z :=
  match String.compare a b with
  | Lt => -1
  | Eq => 0
  | Gt => 1
  end.

Definition sort_default (l : list string) : list string :=
  Array.sort string_cmp l.

(** ** [Set] and [Map]: insertion-ordered containers *)

(** [[...new Set(xs)]]: the elements of [xs] in order of first insertion. *)
Module JsSet.
Section Ops.
Context {A : Type}.
Variable eqb : A -> A -> bool.

Definition has (s : list A) (x : A) : bool := existsb (eqb x) s.

Definition add (s : list A) (x : A) : list A :=
  if has s x then s else s ++ [x].

Definition from (xs : list A) : list A := fold_left add xs [].
End Ops.
End JsSet.

(** [Map<string, V>]: entries in order of first insertion of their key. *)
Module StringMap.
Section Ops.
Context {V : Type}.

Definition t := list (string * V).

Fixpoint get (m : t) (k : string) : option V :=
  match m with
  | [] => None
  | (k', v) :: m' => if String.eqb k k' then Some v else get m' k
  end.

Definition has (m : t) (k : string) : bool :=
  match get m k with Some _ => true | None => false end.

(** [m.set(k, v)]: replaces the value of an existing key in place, adds a
    new key at the end. *)
Fixpoint set (m : t) (k : string) (v : V) : t :=
  match m with
  | [] => [(k, v)]
  | (k', v') :: m' =>
      if String.eqb k k' then (k', v) :: m' else (k', v') :: set m' k v
  end.
End Ops.
Arguments t V : clear implicits.
End StringMap.

(** ** Data model (src/content/config.ts, src/lib/tutorials.ts) *)

Inductive Difficulty : Type := beginner | intermediate | advanced.
Inductive Status : Type := draft | in_progress | complete.

Definition Difficulty_eqb (a b : Difficulty) : bool :=
  match a, b with
  | beginner, beginner | intermediate, intermediate | advanced, advanced => true
  | _, _ => false
  end.

Definition Status_eqb (a b : Status) : bool :=
  match a, b with
  | draft, draft | in_progress, in_progress | complete, complete => true
  | _, _ => false
  end.

(** A [Date], by its [getTime()] (milliseconds since the epoch). *)
Definition Date := Z.
Definition getTime (d : Date) : Z := d.

(** The frontmatter of a tutorial: the schema of the [tutorials] collection. *)
Module Data.
Record t : Type := mk {
  title : string;
  description : string;
  category : string;
  tags : list string;
  difficulty : Difficulty;
  status : Status;
  series : option string;
  seriesOrder : option Z;
  dateCreated : Date;
  dateUpdated : option Date;
  estimatedTime : option string
}.
End Data.

(** [Tutorial = CollectionEntry<'tutorials'>]: the fields the code reads. *)
Record Tutorial : Type := mkTutorial {
  slug : string;
  data : Data.t
}.

(** [Series]; its optional [totalTime] is never set by the code. *)
Module Series.
Record t : Type := mk {
  slug : string;
  title : string;
  description : string;
  tutorials : list Tutorial;
  category : string;
  difficulty : Difficulty
}.
End Series.

Record TutorialData : Type := mkTutorialData {
  standalone : list Tutorial;
  series : list Series.t;
  categories : list string;
  tags : list string
}.

(** ** Truthiness and [||] *)

(** [!!s] for [s : string | undefined]: the empty string is falsy. *)
Definition truthy (s : option string) : bool :=
  match s with
  | Some s' => negb (String.eqb s' EmptyString)
  | None => false
  end.

(** [n || 0] for [n : number | undefined]. *)
Definition or_zero (n : option Z) : Z :=
  match n with
  | Some n' => if n' =? 0 then 0 else n'
  | None => 0
  end.

(** [d || e] for [d : Date | undefined]: an object is always truthy. *)
Definition or_date (d : option Date) (e : Date) : Date :=
  match d with
  | Some d' => d'
  | None => e
  end.

(** [o1 || o2] for objects that may be [undefined]. *)
Definition or_else {A : Type} (o1 o2 : option A) : option A :=
  match o1 with
  | Some a => Some a
  | None => o2
  end.

(** ** The functions of src/lib/tutorials.ts *)

(** [getPublishedTutorials]: the collection, without drafts in production. *)
Definition getPublishedTutorials (PROD : bool) (collection : list Tutorial)
  : list Tutorial :=
  filter (fun t =>
            if PROD then negb (Status_eqb (Data.status (data t)) draft)
            else true)
         collection.

(** [getCategories] (lines 31-35), on the list awaited on line 32. *)
Definition getCategories (tutorials : list Tutorial) : list string :=
  let categories :=
    JsSet.from String.eqb (map (fun t => Data.category (data t)) tutorials) in
  sort_default categories.

(** [getTags] (lines 38-42), on the list awaited on line 39. *)
Definition getTags (tutorials : list Tutorial) : list string :=
  let tags :=
    JsSet.from String.eqb (flat_map (fun t => Data.tags (data t)) tutorials) in
  sort_default tags.

(** [t => t.data.series] as a condition (lines 49 and 59). *)
Definition hasSeries (t : Tutorial) : bool := truthy (Data.series (data t)).

(** [t => t.data.series === seriesSlug] (line 104). *)
Definition memberOf (seriesSlug : string) (t : Tutorial) : bool :=
  match Data.series (data t) with
  | Some s => String.eqb s seriesSlug
  | None => false
  end.

(** [t => t.data.seriesOrder === 0] (line 74). *)
Definition isIndex (t : Tutorial) : bool :=
  match Data.seriesOrder (data t) with
  | Some n => n =? 0
  | None => false
  end.

(** The comparator of the standalone sort (lines 50-54). *)
Definition byDateDesc (a b : Tutorial) : Z :=
  let dateA := or_date (Data.dateUpdated (data a)) (Data.dateCreated (data a)) in
  let dateB := or_date (Data.dateUpdated (data b)) (Data.dateCreated (data b)) in
  getTime dateB - getTime dateA.

(** The comparator of both series sorts (lines 71 and 105). *)
Definition bySeriesOrder (a b : Tutorial) : Z :=
  or_zero (Data.seriesOrder (data a)) - or_zero (Data.seriesOrder (data b)).

(** The body of the [forEach] of lines 60-66, on the map built so far. *)
Definition groupStep (seriesMap : StringMap.t (list Tutorial)) (t : Tutorial)
  : StringMap.t (list Tutorial) :=
  match Data.series (data t) with
  | Some seriesSlug =>
      let seriesMap1 :=
        if negb (StringMap.has seriesMap seriesSlug)
        then StringMap.set seriesMap seriesSlug []
        else seriesMap in
      match StringMap.get seriesMap1 seriesSlug with
      | Some items => StringMap.set seriesMap1 seriesSlug (items ++ [t])
      | None => seriesMap1
      end
  | None => seriesMap  (* excluded by the filter of line 59 *)
  end.

Definition difficulties : list Difficulty := [beginner; intermediate; advanced].

(** The reducer of lines 78-82. *)
Definition higher (max : Difficulty) (t : Tutorial) : Difficulty :=
  let current := Array.indexOf Difficulty_eqb difficulties (Data.difficulty (data t)) in
  let maxIdx := Array.indexOf Difficulty_eqb difficulties max in
  if maxIdx <? current then Data.difficulty (data t) else max.

(** One iteration of the loop of lines 69-92: the [Series] pushed for the
    entry [(slug, items)].  Reading [index.data] throws when [index] is
    [undefined]. *)
Definition buildSeries (entry : string * list Tutorial) : completion Series.t :=
  let '(slug, items0) := entry in
  let items := Array.sort bySeriesOrder items0 in
  let index :=
    or_else (Array.find isIndex items) (Array.get items 0) in
  let highestDifficulty := Array.reduce higher beginner items in
  match index with
  | Some index =>
      Normal (Series.mk slug
                        (Data.title (data index))
                        (Data.description (data index))
                        items
                        (Data.category (data index))
                        highestDifficulty)
  | None => Throw TypeError
  end.

(** The loop of lines 68-92 over the entries of the map. *)
Fixpoint buildAll (entries : list (string * list Tutorial))
  : completion (list Series.t) :=
  match entries with
  | [] => Normal []
  | entry :: rest =>
      s <- buildSeries entry ;;
      ss <- buildAll rest ;;
      Normal (s :: ss)
  end.

(** [getOrganizedTutorials] (lines 45-98), as a function of the list
    [tutorials] awaited on line 46. *)
Definition getOrganizedTutorials (tutorials : list Tutorial)
  : completion TutorialData :=
  let standalone :=
    Array.sort byDateDesc (filter (fun t => negb (hasSeries t)) tutorials) in
  let seriesMap :=
    fold_left groupStep (filter hasSeries tutorials) [] in
  series <- buildAll seriesMap ;;
  let categories :=
    sort_default
      (JsSet.from String.eqb (map (fun t => Data.category (data t)) tutorials)) in
  let tags :=
    sort_default
      (JsSet.from String.eqb (flat_map (fun t => Data.tags (data t)) tutorials)) in
  Normal (mkTutorialData standalone series categories tags).

(** [getSeriesTutorials] (lines 101-106). *)
Definition getSeriesTutorials (tutorials : list Tutorial) (seriesSlug : string)
  : list Tutorial :=
  Array.sort bySeriesOrder (filter (memberOf seriesSlug) tutorials).

(** The object returned by [getSeriesNavigation]. *)
Module Nav.
Record t : Type := mk {
  series : list Tutorial;
  current : Z;
  prev : nullable Tutorial;
  next : nullable Tutorial
}.
End Nav.

(** An array read in a position that expects [Tutorial | null]. *)
Definition element (l : list Tutorial) (i : Z) : nullable Tutorial :=
  match Array.get l i with
  | Some t => Obj t
  | None => Undefined
  end.

(** [getSeriesNavigation] (lines 109-121); [None] is the [null] of line 110. *)
Definition getSeriesNavigation (tutorials : list Tutorial) (tutorial : Tutorial)
  : completion (option Nav.t) :=
  if negb (truthy (Data.series (data tutorial))) then Normal None
  else
    match Data.series (data tutorial) with
    | Some seriesSlug =>
        let seriesTutorials := getSeriesTutorials tutorials seriesSlug in
        let currentIndex :=
          Array.findIndex (fun t => String.eqb (slug t) (slug tutorial))
                          seriesTutorials in
        Normal (Some (Nav.mk
          seriesTutorials
          currentIndex
          (if 0 <? currentIndex
           then element seriesTutorials (currentIndex - 1) else Null)
          (if currentIndex <? Array.length seriesTutorials - 1
           then element seriesTutorials (currentIndex + 1) else Null)))
    | None => Normal None  (* falsy: returned on line 110 *)
    end.

(** ** The pages that call these functions (code listings of
    src/PROJECT_OUTLNE.md) *)



(** [src/pages/tutorials/[...slug].astro], lines 866-872: one page per entry
    of the collection, drafts included ([getCollection] without a filter). *)
Record StaticPath : Type := mkStaticPath {
  params_slug : string;
  props_tutorial : Tutorial
}.

Definition getStaticPaths (collection : list Tutorial) : list StaticPath :=
  map (fun tutorial => mkStaticPath (slug tutorial) tutorial) collection.

Inductive Layout : Type := SeriesLayout | TutorialLayout.

(** Lines 877-878 of the same page: the navigation and the layout of the
    page of [tutorial]. *)
Definition tutorialPage (PROD : bool) (collection : list Tutorial)
  (tutorial : Tutorial) : completion (Layout * option Nav.t) :=
  seriesNav <-
    getSeriesNavigation (getPublishedTutorials PROD collection) tutorial ;;
  let layout :=
    match seriesNav with
    | Some _ => SeriesLayout
    | None => TutorialLayout
    end in
  Normal (layout, seriesNav).

(** The frontmatter of a learning path: the schema of the [paths]
    collection (src/content/config.ts). *)
Module Path.
Record t : Type := mk {
  title : string;
  description : string;
  tutorials : list string;
  estimatedTime : option string
}.
End Path.

(** [src/pages/paths/[slug].astro], lines 956-959: the tutorials of a path,
    resolved from the slugs it lists against the whole collection. *)
Definition pathTutorials (allTutorials : list Tutorial) (path : Path.t)
  : list Tutorial :=
  Array.filterBoolean
    (map (fun slug' =>
            Array.find (fun t => String.eqb (slug t) slug'
                                 || startsWith (slug t) slug')
                       allTutorials)
         (Path.tutorials path)).

(** [src/pages/paths/index.astro], line 909: the count on the path card. *)
Definition tutorialCount (path : Path.t) : Z :=
  Array.length (Path.tutorials path).

(** ** The Organizer at run time, without the types

    TypeScript types are erased: what [getOrganizedTutorials] does on a
    record that lacks a property the type [Tutorial] requires is what the
    JavaScript does on [undefined].  [Raw] is the same code read this way,
    for records in which [slug], [category], [difficulty] and [dateCreated]
    may be missing ([None]); the other properties are as the schema has
    them. *)
Module Raw.

Module Data.
Record t : Type := mk {
  title : string;
  description : string;
  category : option string;
  tags : list string;
  difficulty : option Difficulty;
  status : Status;
  series : option string;
  seriesOrder : option Z;
  dateCreated : option Date;
  dateUpdated : option Date;
  estimatedTime : option string
}.
End Data.

Record Tutorial : Type := mkTutorial {
  slug : option string;
  data : Data.t
}.

Module Series.
Record t : Type := mk {
  slug : string;
  title : string;
  description : string;
  tutorials : list Tutorial;
  category : option string;
  difficulty : option Difficulty
}.
End Series.

Record TutorialData : Type := mkTutorialData {
  standalone : list Tutorial;
  series : list Series.t;
  categories : list (option string);
  tags : list string
}.

Definition hasSeries (t : Tutorial) : bool := truthy (Data.series (data t)).

Definition isIndex (t : Tutorial) : bool :=
  match Data.seriesOrder (data t) with
  | Some n => n =? 0
  | None => false
  end.

(** Lines 50-54: [dateB.getTime()], then [dateA.getTime()], each a
    [TypeError] on [undefined]. *)
Definition byDateDesc (a b : Tutorial) : completion Z :=
  let dateA := or_else (Data.dateUpdated (data a)) (Data.dateCreated (data a)) in
  let dateB := or_else (Data.dateUpdated (data b)) (Data.dateCreated (data b)) in
  match dateB with
  | Some dateB' =>
      match dateA with
      | Some dateA' => Normal (getTime dateB' - getTime dateA')
      | None => Throw TypeError
      end
  | None => Throw TypeError
  end.

Definition bySeriesOrder (a b : Tutorial) : Z :=
  or_zero (Data.seriesOrder (data a)) - or_zero (Data.seriesOrder (data b)).

Definition groupStep (seriesMap : StringMap.t (list Tutorial)) (t : Tutorial)
  : StringMap.t (list Tutorial) :=
  match Data.series (data t) with
  | Some seriesSlug =>
      let seriesMap1 :=
        if negb (StringMap.has seriesMap seriesSlug)
        then StringMap.set seriesMap seriesSlug []
        else seriesMap in
      match StringMap.get seriesMap1 seriesSlug with
      | Some items => StringMap.set seriesMap1 seriesSlug (items ++ [t])
      | None => seriesMap1
      end
  | None => seriesMap
  end.

(** [difficulties.indexOf(d)]: [-1] for [undefined]. *)
Definition difficultyIndex (d : option Difficulty) : Z :=
  match d with
  | Some d' => Array.indexOf Difficulty_eqb difficulties d'
  | None => -1
  end.

Definition higher (max : option Difficulty) (t : Tutorial) : option Difficulty :=
  let current := difficultyIndex (Data.difficulty (data t)) in
  let maxIdx := difficultyIndex max in
  if maxIdx <? current then Data.difficulty (data t) else max.

Definition buildSeries (entry : string * list Tutorial) : completion Series.t :=
  let '(slug, items0) := entry in
  let items := Array.sort bySeriesOrder items0 in
  let index := or_else (Array.find isIndex items) (Array.get items 0) in
  let highestDifficulty := Array.reduce higher (Some beginner) items in
  match index with
  | Some index =>
      Normal (Series.mk slug
                        (Data.title (data index))
                        (Data.description (data index))
                        items
                        (Data.category (data index))
                        highestDifficulty)
  | None => Throw TypeError
  end.

Fixpoint buildAll (entries : list (string * list Tutorial))
  : completion (list Series.t) :=
  match entries with
  | [] => Normal []
  | entry :: rest =>
      s <- buildSeries entry ;;
      ss <- buildAll rest ;;
      Normal (s :: ss)
  end.

(** [===] on [string | undefined], the equality of a [Set]. *)
Definition same (a b : option string) : bool :=
  match a, b with
  | Some x, Some y => String.eqb x y
  | None, None => true
  | _, _ => false
  end.

(** [arr.sort()] with [undefined] elements: they go last. *)
Definition sort_default_undef (l : list (option string))
  : list (option string) :=
  map Some (sort_default (flat_map (fun o => match o with
                                             | Some x => [x]
                                             | None => []
                                             end) l))
  ++ filter (fun o => match o with Some _ => false | None => true end) l.

Definition getOrganizedTutorials (tutorials : list Tutorial)
  : completion TutorialData :=
  standalone <-
    Array.sortM byDateDesc (filter (fun t => negb (hasSeries t)) tutorials) ;;
  let seriesMap := fold_left groupStep (filter hasSeries tutorials) [] in
  series <- buildAll seriesMap ;;
  let categories :=
    sort_default_undef
      (JsSet.from same (map (fun t => Data.category (data t)) tutorials)) in
  let tags :=
    sort_default
      (JsSet.from String.eqb (flat_map (fun t => Data.tags (data t)) tutorials)) in
  Normal (mkTutorialData standalone series categories tags).

End Raw.

(** A well-typed record, as it is at run time. *)
Definition erase (t : Tutorial) : Raw.Tutorial :=
  let d := data t in
  Raw.mkTutorial
    (Some (slug t))
    (Raw.Data.mk (Data.title d) (Data.description d) (Some (Data.category d))
                 (Data.tags d) (Some (Data.difficulty d)) (Data.status d)
                 (Data.series d) (Data.seriesOrder d)
                 (Some (Data.dateCreated d)) (Data.dateUpdated d)
                 (Data.estimatedTime d)).

Definition eraseSeries (s : Series.t) : Raw.Series.t :=
  Raw.Series.mk (Series.slug s) (Series.title s) (Series.description s)
                (map erase (Series.tutorials s))
                (Some (Series.category s)) (Some (Series.difficulty s)).

Definition eraseResult (r : TutorialData) : Raw.TutorialData :=
  Raw.mkTutorialData (map erase (standalone r)) (map eraseSeries (series r))
                     (map Some (categories r)) (tags r).

(** The series map of well-typed records, as it is at run time. *)
Definition eraseMap (m : StringMap.t (list Tutorial))
  : StringMap.t (list Raw.Tutorial) :=
  map (fun e => (fst e, map erase (snd e))) m.

(** ** Vocabulary of the specification *)

(** The elements of a list whose integer key is [k]. *)
Definition keyIs {A : Type} (key : A -> Z) (k : Z) (a : A) : bool := key a =? k.

(** The values of a list in the order in which each is first encountered. *)
Fixpoint first_seen (l : list string) : list string :=
  match l with
  | [] => []
  | x :: l' => x :: filter (fun y => negb (String.eqb y x)) (first_seen l')
  end.

(** The map with the keys [ks], in this order, and the value [f k] at [k]. *)
Definition tabulate {V : Type} (f : string -> V) (ks : list string)
  : StringMap.t V :=
  map (fun k => (k, f k)) ks.

(** The [series] value of a tutorial that has one. *)
Definition seriesOf (t : Tutorial) : string :=
  match Data.series (data t) with
  | Some s => s
  | None => EmptyString
  end.

(** [seriesOrder], a missing one treated as 0. *)
Definition effectiveOrder (t : Tutorial) : Z :=
  match Data.seriesOrder (data t) with
  | Some n => n
  | None => 0
  end.

(** [dateUpdated] if present, else [dateCreated]. *)
Definition effectiveDate (t : Tutorial) : Z :=
  match Data.dateUpdated (data t) with
  | Some d => getTime d
  | None => getTime (Data.dateCreated (data t))
  end.

(** The series map after the grouping of lines 57-66: one entry per series
    value, in first-seen order, holding the members in input order. *)
Definition groups (withSeries : list Tutorial) : StringMap.t (list Tutorial) :=
  tabulate (fun k => filter (memberOf k) withSeries)
           (first_seen (map seriesOf withSeries)).

(** The distinct series values of the input, in first-seen order. *)
Definition seriesKeys (tutorials : list Tutorial) : list string :=
  first_seen (map seriesOf (filter hasSeries tutorials)).

(** [sorted] is the list of the members of series [k] among [tutorials],
    sorted by [seriesOrder] ascending with a missing one treated as 0, the
    members of equal order in their input order. *)
Definition sortedMembers (tutorials : list Tutorial) (k : string)
  (sorted : list Tutorial) : Prop :=
  StronglySorted (fun a b => effectiveOrder a <= effectiveOrder b) sorted /\
  forall o, filter (keyIs effectiveOrder o) sorted =
            filter (keyIs effectiveOrder o) (filter (memberOf k) tutorials).

(** [index] is the index tutorial of the sorted member list [items]: the
    first member whose [seriesOrder] is exactly 0, or the first member when
    no member has [seriesOrder] 0. *)
Definition indexTutorial (items : list Tutorial) (index : Tutorial) : Prop :=
  (exists before after,
      items = before ++ index :: after /\
      Forall (fun t => Data.seriesOrder (data t) <> Some 0) before /\
      Data.seriesOrder (data index) = Some 0) \/
  (Forall (fun t => Data.seriesOrder (data t) <> Some 0) items /\
   hd_error items = Some index).

(** beginner < intermediate < advanced *)
Definition rank (d : Difficulty) : Z :=
  match d with
  | beginner => 0
  | intermediate => 1
  | advanced => 2
  end.

(** ** Example content

    Tutorials in the shape of the repository's content: the three parts of
    the [rust-basics] series (the last one still a draft) and the standalone
    Docker tutorial. *)

Section Examples.
Local Open Scope string_scope.

Definition rust_index : Tutorial :=
  mkTutorial "rust-basics"
    (Data.mk "Rust Programming Basics" "Learn Rust from the ground up"
             "programming" ["rust"; "systems"; "memory"] beginner complete
             (Some "rust-basics") (Some 0) 1736467200000 None (Some "5 min")).

Definition rust_installation : Tutorial :=
  mkTutorial "rust-basics/01-installation"
    (Data.mk "Installing Rust" "Set up the toolchain"
             "programming" ["rust"] beginner complete
             (Some "rust-basics") (Some 1) 1736553600000 None None).

Definition rust_ownership : Tutorial :=
  mkTutorial "rust-basics/02-ownership"
    (Data.mk "Understanding Ownership" "Ownership and borrowing"
             "programming" ["rust"; "memory"] intermediate draft
             (Some "rust-basics") (Some 2) 1736640000000 None None).

Definition docker_basics : Tutorial :=
  mkTutorial "docker-basics"
    (Data.mk "Docker Basics for Developers" "Get started with Docker"
             "devops" ["docker"; "containers"] beginner complete
             None None 1736899200000 None (Some "20 min")).

Definition example_collection : list Tutorial :=
  [rust_ownership; docker_basics; rust_installation; rust_index].

(** A part of the series without [seriesOrder], and a series part in the
    category of the Docker tutorial. *)
Definition rust_preface : Tutorial :=
  mkTutorial "rust-basics/preface"
    (Data.mk "Preface" "Before you start"
             "programming" [] beginner complete
             (Some "rust-basics") None 1736726400000 None None).

Definition compose_intro : Tutorial :=
  mkTutorial "compose/intro"
    (Data.mk "Docker Compose" "Several containers at once"
             "devops" ["docker"] intermediate complete
             (Some "compose") (Some 0) 1736985600000 None None).

(** The installation part as a loader without schema would hand it over:
    no [slug], no [category], no [difficulty], no [dateCreated]. *)
Definition incomplete_installation : Raw.Tutorial :=
  Raw.mkTutorial None
    (Raw.Data.mk "Installing Rust" "Set up the toolchain"
                 None ["rust"] None complete
                 (Some "rust-basics") (Some 1) None None None).

End Examples.

(** * Properties *)

(** ** [Array.prototype.sort] *)

Section SortFacts.
Context {A : Type}.
Variable cmp : A -> A -> Z.

Lemma insert_perm (x : A) (l : list A) :
  Permutation (Array.insert cmp x l) (x :: l).
Proof.
  induction l as [|y l IH]; simpl.
  - apply Permutation_refl.
  - destruct (0 <? cmp x y).
    + eapply Permutation_trans.
      * apply perm_skip. exact IH.
      * apply perm_swap.
    + apply Permutation_refl.
Qed.

Lemma sort_perm (l : list A) : Permutation (Array.sort cmp l) l.
Proof.
  induction l as [|x l IH]; simpl.
  - constructor.
  - eapply Permutation_trans.
    + apply insert_perm.
    + apply perm_skip. exact IH.
Qed.

Lemma sort_In (l : list A) (x : A) : In x (Array.sort cmp l) <-> In x l.
Proof.
  split; apply Permutation_in.
  - apply sort_perm.
  - apply Permutation_sym, sort_perm.
Qed.

Lemma sort_length (l : list A) :
  List.length (Array.sort cmp l) = List.length l.
Proof. apply Permutation_length, sort_perm. Qed.

Lemma sort_nil_inv (l : list A) : Array.sort cmp l = [] -> l = [].
Proof.
  intros H. apply (f_equal (@List.length A)) in H.
  rewrite sort_length in H. destruct l; [reflexivity | discriminate].
Qed.

(** A consistent comparator: [cmp a b <= 0] is a total preorder. *)
Section Consistent.
Hypothesis cmp_total : forall a b, 0 < cmp a b -> cmp b a <= 0.
Hypothesis cmp_trans :
  forall a b c, cmp a b <= 0 -> cmp b c <= 0 -> cmp a c <= 0.

Lemma insert_sorted (x : A) (l : list A) :
  StronglySorted (fun a b => cmp a b <= 0) l ->
  StronglySorted (fun a b => cmp a b <= 0) (Array.insert cmp x l).
Proof.
  induction l as [|y l IH]; simpl; intros Hs.
  - repeat constructor.
  - inversion Hs as [|? ? Hs' Hy]; subst.
    destruct (0 <? cmp x y) eqn:E.
    + apply Z.ltb_lt in E. constructor.
      * apply IH, Hs'.
      * eapply Permutation_Forall.
        -- apply Permutation_sym, insert_perm.
        -- constructor; [apply cmp_total, E | exact Hy].
    + apply Z.ltb_ge in E. constructor; [exact Hs|].
      constructor; [exact E|].
      eapply Forall_impl; [|exact Hy].
      intros z Hz. eapply cmp_trans; eassumption.
Qed.

Lemma sort_sorted (l : list A) :
  StronglySorted (fun a b => cmp a b <= 0) (Array.sort cmp l).
Proof.
  induction l as [|x l IH]; simpl.
  - constructor.
  - apply insert_sorted, IH.
Qed.
End Consistent.

(** A comparator that orders by an integer key. *)
Section ByKey.
Variable key : A -> Z.
Hypothesis cmp_key : forall a b, 0 < cmp a b <-> key b < key a.

Lemma sort_key_sorted (l : list A) :
  StronglySorted (fun a b => key a <= key b) (Array.sort cmp l).
Proof.
  assert (Hle : forall a b, cmp a b <= 0 <-> key a <= key b).
  { intros a b. specialize (cmp_key a b). lia. }
  eapply StronglySorted_ind with
    (P := StronglySorted (fun a b => key a <= key b)).
  - constructor.
  - intros a l' _ IH Hall. constructor; [exact IH|].
    eapply Forall_impl; [|exact Hall]. intros b. apply Hle.
  - apply sort_sorted.
    + intros a b Hab. apply Hle. apply cmp_key in Hab. lia.
    + intros a b c Hab Hbc. apply Hle. apply Hle in Hab, Hbc. lia.
Qed.

Lemma insert_stable (k : Z) (x : A) (l : list A) :
  filter (keyIs key k) (Array.insert cmp x l) = filter (keyIs key k) (x :: l).
Proof.
  induction l as [|y l IH]; simpl; [reflexivity|].
  destruct (0 <? cmp x y) eqn:E.
  - apply Z.ltb_lt, cmp_key in E. simpl. rewrite IH. simpl.
    unfold keyIs.
    destruct (key y =? k) eqn:Ey; destruct (key x =? k) eqn:Ex;
      try reflexivity.
    apply Z.eqb_eq in Ey, Ex. lia.
  - reflexivity.
Qed.

(** Stability: the elements of every key keep their relative order. *)
Lemma sort_stable (k : Z) (l : list A) :
  filter (keyIs key k) (Array.sort cmp l) = filter (keyIs key k) l.
Proof.
  induction l as [|x l IH]; simpl; [reflexivity|].
  rewrite insert_stable. simpl. rewrite IH. reflexivity.
Qed.

(** The result does not depend on the sorting algorithm: a list in key
    order that keeps the elements of every key in their order is the
    one [sort] returns. *)
Lemma stable_sorted_unique (l1 l2 : list A) :
  StronglySorted (fun a b => key a <= key b) l1 ->
  StronglySorted (fun a b => key a <= key b) l2 ->
  (forall k, filter (keyIs key k) l1 = filter (keyIs key k) l2) ->
  l1 = l2.
Proof.
  revert l2. induction l1 as [|a l1 IH]; intros l2 H1 H2 Hf.
  - destruct l2 as [|b l2]; [reflexivity|].
    specialize (Hf (key b)). simpl in Hf. unfold keyIs in Hf.
    rewrite Z.eqb_refl in Hf. discriminate.
  - destruct l2 as [|b l2].
    + specialize (Hf (key a)). simpl in Hf. unfold keyIs in Hf.
      rewrite Z.eqb_refl in Hf. discriminate.
    + inversion H1 as [|? ? H1' Ha]; subst.
      inversion H2 as [|? ? H2' Hb]; subst.
      assert (Hab : key b <= key a).
      { pose proof (Hf (key a)) as E. simpl in E. unfold keyIs in E.
        rewrite Z.eqb_refl in E.
        destruct (key b =? key a) eqn:Eb; [apply Z.eqb_eq in Eb; lia|].
        assert (Hin : In a (filter (fun a0 => key a0 =? key a) l2)).
        { rewrite <- E. left. reflexivity. }
        apply filter_In in Hin. destruct Hin as [Hin _].
        rewrite Forall_forall in Hb. apply Hb, Hin. }
      assert (Hba : key a <= key b).
      { pose proof (Hf (key b)) as E. simpl in E. unfold keyIs in E.
        rewrite Z.eqb_refl in E.
        destruct (key a =? key b) eqn:Ea; [apply Z.eqb_eq in Ea; lia|].
        assert (Hin : In b (filter (fun a0 => key a0 =? key b) l1)).
        { rewrite E. left. reflexivity. }
        apply filter_In in Hin. destruct Hin as [Hin _].
        rewrite Forall_forall in Ha. apply Ha, Hin. }
      assert (Heq : a = b).
      { pose proof (Hf (key a)) as E. simpl in E. unfold keyIs in E.
        rewrite Z.eqb_refl in E.
        replace (key b =? key a) with true in E
          by (symmetry; apply Z.eqb_eq; lia).
        congruence. }
      subst b. f_equal. apply IH; try assumption.
      intros k. specialize (Hf k). simpl in Hf.
      destruct (keyIs key k a); congruence.
Qed.
End ByKey.
End SortFacts.

(** ** Values in first-seen order, [Set] and [Map] *)

Lemma first_seen_In (l : list string) (x : string) :
  In x (first_seen l) <-> In x l.
Proof.
  induction l as [|y l IH]; simpl; [tauto|].
  rewrite filter_In, IH. split.
  - intros [H | [H _]]; auto.
  - intros [H | H]; auto.
    destruct (String.eqb_spec x y) as [E | E]; auto.
Qed.

Lemma first_seen_NoDup (l : list string) : NoDup (first_seen l).
Proof.
  induction l as [|y l IH]; simpl; constructor.
  - rewrite filter_In. intros [_ H]. rewrite String.eqb_refl in H. discriminate.
  - apply NoDup_filter, IH.
Qed.

Lemma existsb_eqb_In (x : string) (l : list string) :
  existsb (String.eqb x) l = true <-> In x l.
Proof.
  rewrite existsb_exists. split.
  - intros [y [Hy E]]. apply String.eqb_eq in E. subst. exact Hy.
  - intros H. exists x. split; [exact H | apply String.eqb_refl].
Qed.

Lemma first_seen_snoc (l : list string) (x : string) :
  first_seen (l ++ [x]) =
  if existsb (String.eqb x) (first_seen l) then first_seen l
  else first_seen l ++ [x].
Proof.
  induction l as [|y l IH]; simpl; [reflexivity|].
  rewrite IH. destruct (String.eqb_spec x y) as [E | E]; simpl.
  - subst y.
    destruct (existsb (String.eqb x) (first_seen l)); [reflexivity|].
    rewrite filter_app. simpl. rewrite String.eqb_refl. simpl.
    rewrite app_nil_r. reflexivity.
  - destruct (existsb (String.eqb x) (first_seen l)) eqn:Ex.
    + assert (H : In x (filter (fun z => negb (String.eqb z y)) (first_seen l))).
      { apply filter_In. split; [apply existsb_eqb_In, Ex|].
        apply negb_true_iff, String.eqb_neq, E. }
      apply existsb_eqb_In in H. rewrite H. reflexivity.
    + assert (H : existsb (String.eqb x)
                    (filter (fun z => negb (String.eqb z y)) (first_seen l)) = false).
      { apply not_true_is_false. intros H. apply existsb_eqb_In, filter_In in H.
        destruct H as [H _]. apply existsb_eqb_In in H. congruence. }
      rewrite H, filter_app. simpl.
      apply String.eqb_neq in E. rewrite E. reflexivity.
Qed.

(** [[...new Set(xs)]] lists the values of [xs] in first-seen order. *)
Lemma StringSet_from_first_seen (xs : list string) :
  JsSet.from String.eqb xs = first_seen xs.
Proof.
  unfold JsSet.from, JsSet.add, JsSet.has.
  induction xs as [|x xs IH] using rev_ind; [reflexivity|].
  rewrite fold_left_app, IH, first_seen_snoc. reflexivity.
Qed.

Section MapFacts.
Context {V : Type}.
Variable f : string -> V.

Lemma get_tabulate (ks : list string) (k : string) :
  StringMap.get (tabulate f ks) k =
  if existsb (String.eqb k) ks then Some (f k) else None.
Proof.
  induction ks as [|k' ks IH]; simpl; [reflexivity|].
  destruct (String.eqb_spec k k') as [E | E]; simpl.
  - subst. reflexivity.
  - exact IH.
Qed.

Lemma set_tabulate_new (ks : list string) (k : string) (v : V) :
  existsb (String.eqb k) ks = false ->
  StringMap.set (tabulate f ks) k v = tabulate f ks ++ [(k, v)].
Proof.
  induction ks as [|k' ks IH]; simpl; [reflexivity|].
  destruct (String.eqb k k'); simpl; [discriminate|].
  intros H. rewrite IH by exact H. reflexivity.
Qed.

Lemma set_tabulate_old (ks : list string) (k : string) (v : V) :
  NoDup ks -> In k ks ->
  StringMap.set (tabulate f ks) k v =
  map (fun k' => (k', if String.eqb k' k then v else f k')) ks.
Proof.
  induction ks as [|k' ks IH]; simpl; [tauto|].
  intros Hnd Hin. inversion Hnd as [|? ? Hk' Hnd']; subst.
  destruct (String.eqb_spec k k') as [E | E].
  - subst k'. rewrite String.eqb_refl. f_equal.
    apply map_ext_in. intros a Ha.
    destruct (String.eqb_spec a k) as [E | E]; [subst; contradiction | reflexivity].
  - destruct (String.eqb_spec k' k) as [E' | E']; [congruence|].
    f_equal. apply IH; [exact Hnd'|].
    destruct Hin as [Hin | Hin]; [congruence | exact Hin].
Qed.
End MapFacts.

Section MapAppend.
Context {V : Type}.

Lemma get_app_new (m : StringMap.t V) (k : string) (v : V) :
  StringMap.get m k = None -> StringMap.get (m ++ [(k, v)]) k = Some v.
Proof.
  induction m as [|[k' v'] m IH]; simpl.
  - rewrite String.eqb_refl. reflexivity.
  - destruct (String.eqb k k'); [discriminate | exact IH].
Qed.

Lemma set_app_new (m : StringMap.t V) (k : string) (v v' : V) :
  StringMap.get m k = None ->
  StringMap.set (m ++ [(k, v)]) k v' = m ++ [(k, v')].
Proof.
  induction m as [|[k' v0] m IH]; simpl.
  - rewrite String.eqb_refl. reflexivity.
  - destruct (String.eqb k k'); [discriminate|].
    intros H. rewrite IH by exact H. reflexivity.
Qed.

Lemma set_new (m : StringMap.t V) (k : string) (v : V) :
  StringMap.get m k = None -> StringMap.set m k v = m ++ [(k, v)].
Proof.
  induction m as [|[k' v0] m IH]; simpl; [reflexivity|].
  destruct (String.eqb k k'); [discriminate|].
  intros H. rewrite IH by exact H. reflexivity.
Qed.
End MapAppend.

(** ** The grouping of lines 57-66 *)

Lemma hasSeries_Some (t : Tutorial) :
  hasSeries t = true ->
  Data.series (data t) = Some (seriesOf t) /\ seriesOf t <> EmptyString.
Proof.
  unfold hasSeries, seriesOf, truthy.
  destruct (Data.series (data t)) as [s|]; [|discriminate].
  intros H. split; [reflexivity|].
  apply negb_true_iff, String.eqb_neq in H. exact H.
Qed.

Lemma memberOf_seriesOf (k : string) (t : Tutorial) :
  memberOf k t = true -> seriesOf t = k.
Proof.
  unfold memberOf, seriesOf. destruct (Data.series (data t)); [|discriminate].
  apply String.eqb_eq.
Qed.

Lemma memberOf_eqb (k : string) (t : Tutorial) :
  hasSeries t = true -> memberOf k t = String.eqb (seriesOf t) k.
Proof.
  intros H. apply hasSeries_Some in H. destruct H as [H _].
  unfold memberOf. rewrite H. reflexivity.
Qed.

Lemma groupStep_groups (l : list Tutorial) (t : Tutorial) :
  hasSeries t = true -> groupStep (groups l) t = groups (l ++ [t]).
Proof.
  intros Ht. pose proof (memberOf_eqb) as Hm.
  destruct (hasSeries_Some t Ht) as [Hs _].
  unfold groupStep, groups. rewrite Hs. set (k := seriesOf t) in *.
  unfold StringMap.has. rewrite get_tabulate, map_app. simpl map.
  fold k. rewrite first_seen_snoc.
  destruct (existsb (String.eqb k) (first_seen (map seriesOf l))) eqn:Ex; simpl negb; cbv iota.
  - rewrite get_tabulate, Ex.
    rewrite set_tabulate_old;
      [| apply first_seen_NoDup | apply existsb_eqb_In, Ex].
    unfold tabulate. apply map_ext. intros k'.
    rewrite filter_app. simpl. rewrite (Hm k' t Ht). fold k.
    rewrite (String.eqb_sym k' k).
    destruct (String.eqb_spec k k') as [E | E].
    + subst k'. reflexivity.
    + rewrite app_nil_r. reflexivity.
  - assert (Hnone : StringMap.get
              (tabulate (fun k0 => filter (memberOf k0) l)
                        (first_seen (map seriesOf l))) k = None).
    { rewrite get_tabulate, Ex. reflexivity. }
    rewrite set_new by exact Hnone.
    rewrite get_app_new by exact Hnone.
    rewrite set_app_new by exact Hnone.
    unfold tabulate. rewrite map_app. simpl. f_equal.
    + apply map_ext_in. intros k' Hk'. rewrite filter_app. simpl.
      rewrite (Hm k' t Ht). fold k.
      destruct (String.eqb_spec k k') as [E | E].
      * subst k'. apply existsb_eqb_In in Hk'. congruence.
      * rewrite app_nil_r. reflexivity.
    + rewrite filter_app. simpl. rewrite (Hm k t Ht). fold k.
      rewrite String.eqb_refl.
      replace (filter (memberOf k) l) with (@nil Tutorial); [reflexivity|].
      symmetry. destruct (filter (memberOf k) l) as [|u l'] eqn:Ef; [reflexivity|].
      assert (Hu : In u (filter (memberOf k) l)) by (rewrite Ef; left; reflexivity).
      apply filter_In in Hu. destruct Hu as [Hu Hk].
      apply memberOf_seriesOf in Hk.
      assert (Hin : In k (first_seen (map seriesOf l))).
      { apply first_seen_In. rewrite <- Hk. apply in_map, Hu. }
      apply existsb_eqb_In in Hin. congruence.
Qed.

Lemma group_fold (withSeries : list Tutorial) :
  Forall (fun t => hasSeries t = true) withSeries ->
  fold_left groupStep withSeries [] = groups withSeries.
Proof.
  induction withSeries as [|t l IH] using rev_ind; intros H; [reflexivity|].
  apply Forall_app in H. destruct H as [Hl Ht].
  inversion Ht; subst.
  rewrite fold_left_app. simpl. rewrite IH by exact Hl.
  apply groupStep_groups. assumption.
Qed.

Lemma filter_hasSeries_Forall (ts : list Tutorial) :
  Forall (fun t => hasSeries t = true) (filter hasSeries ts).
Proof. apply Forall_forall. intros t H. apply filter_In in H. tauto. Qed.

Lemma memberOf_hasSeries (k : string) (t : Tutorial) :
  k <> EmptyString -> memberOf k t = true -> hasSeries t = true.
Proof.
  unfold memberOf, hasSeries, truthy.
  destruct (Data.series (data t)) as [s|]; [|discriminate].
  intros Hk E. apply String.eqb_eq in E. subst s.
  apply negb_true_iff, String.eqb_neq, Hk.
Qed.

Lemma seriesKeys_spec (ts : list Tutorial) (k : string) :
  In k (seriesKeys ts) <->
  exists t, In t ts /\ Data.series (data t) = Some k /\ k <> EmptyString.
Proof.
  unfold seriesKeys. rewrite first_seen_In, in_map_iff. split.
  - intros [t [Hk Ht]]. apply filter_In in Ht. destruct Ht as [Ht Hs].
    apply hasSeries_Some in Hs. exists t. subst k. tauto.
  - intros [t [Ht [Hs Hk]]]. exists t.
    assert (Hh : hasSeries t = true).
    { apply (memberOf_hasSeries k); [exact Hk|].
      unfold memberOf. rewrite Hs. apply String.eqb_refl. }
    split.
    + unfold seriesOf. rewrite Hs. reflexivity.
    + apply filter_In. tauto.
Qed.

Lemma filter_memberOf_hasSeries (ts : list Tutorial) (k : string) :
  k <> EmptyString ->
  filter (memberOf k) (filter hasSeries ts) = filter (memberOf k) ts.
Proof.
  intros Hk. induction ts as [|t ts IH]; simpl; [reflexivity|].
  destruct (hasSeries t) eqn:Eh; simpl; rewrite IH; [reflexivity|].
  destruct (memberOf k t) eqn:Em; [|reflexivity].
  apply (memberOf_hasSeries k t Hk) in Em. congruence.
Qed.

Lemma members_nonempty (ts : list Tutorial) (k : string) :
  In k (seriesKeys ts) -> filter (memberOf k) ts <> [].
Proof.
  intros H. apply seriesKeys_spec in H. destruct H as [t [Ht [Hs _]]].
  assert (Hin : In t (filter (memberOf k) ts)).
  { apply filter_In. split; [exact Ht|].
    unfold memberOf. rewrite Hs. apply String.eqb_refl. }
  intros E. rewrite E in Hin. exact Hin.
Qed.

(** ** One series (lines 69-92) *)

Lemma buildSeries_ok (k : string) (items0 : list Tutorial) :
  items0 <> [] ->
  exists index,
    or_else (Array.find isIndex (Array.sort bySeriesOrder items0))
            (Array.get (Array.sort bySeriesOrder items0) 0) = Some index /\
    buildSeries (k, items0) =
    Normal (Series.mk k
                      (Data.title (data index))
                      (Data.description (data index))
                      (Array.sort bySeriesOrder items0)
                      (Data.category (data index))
                      (Array.reduce higher beginner
                                    (Array.sort bySeriesOrder items0))).
Proof.
  intros Hne. unfold buildSeries.
  destruct (or_else (Array.find isIndex (Array.sort bySeriesOrder items0))
                    (Array.get (Array.sort bySeriesOrder items0) 0))
    as [index|] eqn:E.
  - exists index. split; reflexivity.
  - exfalso. unfold or_else in E.
    destruct (Array.find isIndex (Array.sort bySeriesOrder items0)); [discriminate|].
    destruct (Array.sort bySeriesOrder items0) as [|x l] eqn:Es; [|discriminate].
    apply sort_nil_inv in Es. contradiction.
Qed.

Lemma buildAll_Forall2 (entries : list (string * list Tutorial)) :
  (forall e, In e entries -> snd e <> []) ->
  exists ss, buildAll entries = Normal ss /\
             Forall2 (fun e s => buildSeries e = Normal s) entries ss.
Proof.
  induction entries as [|[k items0] entries IH]; intros H; cbn [buildAll].
  - exists []. split; [reflexivity | constructor].
  - destruct (buildSeries_ok k items0) as [index [_ Hb]].
    { apply (H (k, items0)). left. reflexivity. }
    destruct IH as [ss [Hss HF]].
    { intros e He. apply H. right. exact He. }
    rewrite Hb, Hss. cbn [bind]. eexists. split; [reflexivity|].
    constructor; [exact Hb | exact HF].
Qed.

(** ** The Organizer, step by step *)

(** The Organizer returns, and its result is made of: the standalone
    tutorials sorted by the comparator of line 50; one [Series] per series
    value in first-seen order, built by the loop body from all members of
    that value in input order; the sorted sets of categories and tags. *)
Lemma getOrganizedTutorials_steps (ts : list Tutorial) :
  exists ss,
    getOrganizedTutorials ts =
    Normal (mkTutorialData
              (Array.sort byDateDesc (filter (fun t => negb (hasSeries t)) ts))
              ss
              (sort_default (first_seen (map (fun t => Data.category (data t)) ts)))
              (sort_default (first_seen (flat_map (fun t => Data.tags (data t)) ts)))) /\
    Forall2 (fun k s => buildSeries (k, filter (memberOf k) ts) = Normal s)
            (seriesKeys ts) ss.
Proof.
  unfold getOrganizedTutorials.
  rewrite group_fold by apply filter_hasSeries_Forall.
  rewrite !StringSet_from_first_seen.
  assert (Hg : groups (filter hasSeries ts) =
               map (fun k => (k, filter (memberOf k) ts)) (seriesKeys ts)).
  { unfold groups, tabulate. apply map_ext_in. intros k Hk.
    rewrite filter_memberOf_hasSeries; [reflexivity|].
    apply seriesKeys_spec in Hk. destruct Hk as [t [_ [_ Hk]]]. exact Hk. }
  rewrite Hg.
  destruct (buildAll_Forall2
              (map (fun k => (k, filter (memberOf k) ts)) (seriesKeys ts)))
    as [ss [Hss HF]].
  { intros e He. apply in_map_iff in He. destruct He as [k [Ek Hk]].
    subst e. simpl. apply members_nonempty, Hk. }
  exists ss. rewrite Hss. simpl. split; [reflexivity|].
  clear Hss Hg. revert ss HF.
  induction (seriesKeys ts) as [|k ks IH]; intros ss HF; inversion HF; subst.
  - constructor.
  - constructor; [assumption | apply IH; assumption].
Qed.

Lemma buildSeries_fields (k : string) (items0 : list Tutorial) (s : Series.t) :
  buildSeries (k, items0) = Normal s ->
  Series.slug s = k /\
  Series.tutorials s = Array.sort bySeriesOrder items0 /\
  Series.difficulty s =
    Array.reduce higher beginner (Array.sort bySeriesOrder items0) /\
  exists index,
    or_else (Array.find isIndex (Array.sort bySeriesOrder items0))
            (Array.get (Array.sort bySeriesOrder items0) 0) = Some index /\
    Series.title s = Data.title (data index) /\
    Series.description s = Data.description (data index) /\
    Series.category s = Data.category (data index).
Proof.
  unfold buildSeries.
  destruct (or_else (Array.find isIndex (Array.sort bySeriesOrder items0))
                    (Array.get (Array.sort bySeriesOrder items0) 0))
    as [index|]; [|discriminate].
  intros H. injection H as <-. simpl.
  repeat split. exists index. repeat split.
Qed.

(** ** The two comparators order by a key *)

Lemma or_zero_effective (t : Tutorial) :
  or_zero (Data.seriesOrder (data t)) = effectiveOrder t.
Proof.
  unfold or_zero, effectiveOrder.
  destruct (Data.seriesOrder (data t)) as [n|]; [|reflexivity].
  destruct (Z.eqb_spec n 0); congruence.
Qed.

Lemma bySeriesOrder_key (a b : Tutorial) :
  0 < bySeriesOrder a b <-> effectiveOrder b < effectiveOrder a.
Proof. unfold bySeriesOrder. rewrite !or_zero_effective. lia. Qed.

Lemma byDateDesc_key (a b : Tutorial) :
  0 < byDateDesc a b <-> - effectiveDate b < - effectiveDate a.
Proof.
  unfold byDateDesc, effectiveDate, or_date, getTime.
  destruct (Data.dateUpdated (data a)), (Data.dateUpdated (data b)); lia.
Qed.

(** [getSeriesTutorials] returns the sorted members, and nothing else is. *)
Lemma sortedMembers_iff (ts : list Tutorial) (k : string) (sorted : list Tutorial) :
  sortedMembers ts k sorted <-> sorted = getSeriesTutorials ts k.
Proof.
  unfold sortedMembers, getSeriesTutorials. split.
  - intros [Hs Hf].
    apply (stable_sorted_unique effectiveOrder); [exact Hs | |].
    + apply (sort_key_sorted bySeriesOrder effectiveOrder bySeriesOrder_key).
    + intros o. rewrite Hf. symmetry.
      apply (sort_stable bySeriesOrder effectiveOrder bySeriesOrder_key).
  - intros ->. split.
    + apply (sort_key_sorted bySeriesOrder effectiveOrder bySeriesOrder_key).
    + intros o. apply (sort_stable bySeriesOrder effectiveOrder bySeriesOrder_key).
Qed.

(** ** The groups partition the tutorials that have a series *)

Lemma filter_disjoint_perm {A : Type} (p q : A -> bool) (l : list A) :
  (forall x, p x = true -> q x = false) ->
  Permutation (filter p l ++ filter q l) (filter (fun x => p x || q x) l).
Proof.
  intros Hd. induction l as [|x l IH]; simpl; [constructor|].
  destruct (p x) eqn:Ep; simpl.
  - rewrite (Hd x Ep). apply perm_skip, IH.
  - destruct (q x); [|exact IH].
    apply Permutation_sym. apply Permutation_cons_app, Permutation_sym, IH.
Qed.

Lemma memberOf_split (k : string) (t : Tutorial) :
  k <> EmptyString ->
  memberOf k t = hasSeries t && String.eqb (seriesOf t) k.
Proof.
  intros Hk. unfold memberOf, hasSeries, seriesOf, truthy.
  destruct (Data.series (data t)) as [s|]; [|reflexivity].
  destruct (String.eqb_spec s k) as [E | E].
  - subst s. apply String.eqb_neq in Hk. rewrite Hk. reflexivity.
  - rewrite andb_false_r. reflexivity.
Qed.

Lemma concat_members_perm (ts : list Tutorial) (ks : list string) :
  NoDup ks -> ~ In EmptyString ks ->
  Permutation
    (List.concat (map (fun k => filter (memberOf k) ts) ks))
    (filter (fun t => hasSeries t && existsb (String.eqb (seriesOf t)) ks) ts).
Proof.
  induction ks as [|k ks IH]; intros Hnd Hne; simpl.
  - replace (filter (fun t => hasSeries t && false) ts) with (@nil Tutorial);
      [constructor|].
    symmetry. induction ts as [|t ts IHts]; simpl; [reflexivity|].
    rewrite andb_false_r. exact IHts.
  - inversion Hnd as [|? ? Hk Hnd']; subst.
    assert (Hk0 : k <> EmptyString) by (intros E; apply Hne; left; exact E).
    eapply Permutation_trans.
    + apply Permutation_app_head. apply IH; [exact Hnd'|].
      intros H. apply Hne. right. exact H.
    + eapply Permutation_trans.
      * apply filter_disjoint_perm. intros t Hm.
        rewrite (memberOf_split k t Hk0) in Hm.
        apply andb_true_iff in Hm. destruct Hm as [Hh He].
        apply String.eqb_eq in He. rewrite Hh, He. simpl.
        apply not_true_is_false. intros H. apply existsb_eqb_In in H.
        contradiction.
      * erewrite filter_ext; [apply Permutation_refl|].
        intros t. simpl. rewrite (memberOf_split k t Hk0).
        destruct (hasSeries t); reflexivity.
Qed.

Lemma series_tutorials_perm (ts : list Tutorial) (ks : list string)
  (ss : list Series.t) :
  Forall2 (fun k s => buildSeries (k, filter (memberOf k) ts) = Normal s) ks ss ->
  Permutation (List.concat (map Series.tutorials ss))
              (List.concat (map (fun k => filter (memberOf k) ts) ks)).
Proof.
  induction 1 as [|k s ks ss Hb _ IH]; simpl; [constructor|].
  apply buildSeries_fields in Hb. destruct Hb as [_ [Ht _]]. rewrite Ht.
  apply Permutation_app; [apply sort_perm | exact IH].
Qed.

Lemma seriesKeys_nonempty (ts : list Tutorial) : ~ In EmptyString (seriesKeys ts).
Proof.
  intros H. apply seriesKeys_spec in H. destruct H as [t [_ [_ H]]].
  apply H. reflexivity.
Qed.

Lemma filter_seriesKeys (ts : list Tutorial) :
  filter (fun t => hasSeries t &&
                   existsb (String.eqb (seriesOf t)) (seriesKeys ts)) ts =
  filter hasSeries ts.
Proof.
  apply filter_ext_in. intros t Ht.
  destruct (hasSeries t) eqn:Eh; [simpl | reflexivity].
  apply existsb_eqb_In, seriesKeys_spec. exists t.
  apply hasSeries_Some in Eh. tauto.
Qed.

Lemma series_slugs (ts : list Tutorial) (ks : list string) (ss : list Series.t) :
  Forall2 (fun k s => buildSeries (k, filter (memberOf k) ts) = Normal s) ks ss ->
  map Series.slug ss = ks.
Proof.
  induction 1 as [|k s ks ss Hb _ IH]; simpl; [reflexivity|].
  apply buildSeries_fields in Hb. destruct Hb as [Hs _]. rewrite Hs, IH.
  reflexivity.
Qed.

Lemma series_built (ts : list Tutorial) (ks : list string) (ss : list Series.t)
  (s : Series.t) :
  Forall2 (fun k s => buildSeries (k, filter (memberOf k) ts) = Normal s) ks ss ->
  In s ss ->
  In (Series.slug s) ks /\
  buildSeries (Series.slug s, filter (memberOf (Series.slug s)) ts) = Normal s.
Proof.
  induction 1 as [|k s' ks ss Hb _ IH]; simpl; [tauto|].
  intros [E | Hin].
  - subst s'. pose proof (buildSeries_fields _ _ _ Hb) as [Hs _].
    rewrite Hs. split; [left; reflexivity | exact Hb].
  - destruct (IH Hin) as [H1 H2]. split; [right; exact H1 | exact H2].
Qed.

(** ** The index tutorial (line 74) *)

Lemma isIndex_iff (t : Tutorial) :
  isIndex t = true <-> Data.seriesOrder (data t) = Some 0.
Proof.
  unfold isIndex. destruct (Data.seriesOrder (data t)) as [n|].
  - rewrite Z.eqb_eq. split; congruence.
  - split; discriminate.
Qed.

Lemma find_first {A : Type} (p : A -> bool) (l : list A) (x : A) :
  List.find p l = Some x ->
  exists before after,
    l = before ++ x :: after /\ Forall (fun y => p y = false) before /\ p x = true.
Proof.
  induction l as [|y l IH]; simpl; [discriminate|].
  destruct (p y) eqn:Ey.
  - intros H. injection H as <-. exists [], l. repeat split; [constructor | exact Ey].
  - intros H. destruct (IH H) as [before [after [El [Hb Hx]]]].
    exists (y :: before), after. subst l. repeat split; [|exact Hx].
    constructor; assumption.
Qed.

Lemma find_none_Forall {A : Type} (p : A -> bool) (l : list A) :
  List.find p l = None -> Forall (fun y => p y = false) l.
Proof.
  intros H. apply Forall_forall. intros y Hy. exact (find_none p l H y Hy).
Qed.

Lemma not_isIndex (l : list Tutorial) :
  Forall (fun y => isIndex y = false) l ->
  Forall (fun t => Data.seriesOrder (data t) <> Some 0) l.
Proof.
  apply Forall_impl. intros t H E. apply isIndex_iff in E. congruence.
Qed.

Lemma designate_spec (items : list Tutorial) (index : Tutorial) :
  or_else (Array.find isIndex items) (Array.get items 0) = Some index ->
  indexTutorial items index.
Proof.
  unfold or_else, Array.find, indexTutorial.
  destruct (List.find isIndex items) as [x|] eqn:Ef.
  - intros H. injection H as <-. left.
    destruct (find_first _ _ _ Ef) as [before [after [El [Hb Hx]]]].
    exists before, after. repeat split;
      [exact El | apply not_isIndex, Hb | apply isIndex_iff, Hx].
  - intros H. right. split.
    + apply not_isIndex, find_none_Forall, Ef.
    + destruct items; exact H.
Qed.

(** ** The highest difficulty (lines 77-82) *)

Lemma higher_rank (m : Difficulty) (t : Tutorial) :
  rank (higher m t) = Z.max (rank m) (rank (Data.difficulty (data t))).
Proof.
  unfold higher. destruct m, (Data.difficulty (data t)); reflexivity.
Qed.

Lemma higher_choice (m : Difficulty) (t : Tutorial) :
  higher m t = m \/ higher m t = Data.difficulty (data t).
Proof.
  unfold higher.
  destruct (_ <? _); [right | left]; reflexivity.
Qed.

Lemma reduce_higher_rank (l : list Tutorial) (m : Difficulty) :
  rank (Array.reduce higher m l) =
  fold_left (fun r t => Z.max r (rank (Data.difficulty (data t)))) l (rank m).
Proof.
  unfold Array.reduce. revert m.
  induction l as [|t l IH]; intros m; simpl; [reflexivity|].
  rewrite IH, higher_rank. reflexivity.
Qed.

Lemma reduce_higher_upper (l : list Tutorial) (m : Difficulty) :
  rank m <= rank (Array.reduce higher m l) /\
  forall t, In t l ->
            rank (Data.difficulty (data t)) <= rank (Array.reduce higher m l).
Proof.
  unfold Array.reduce. revert m.
  induction l as [|t l IH]; intros m; simpl.
  - split; [lia | tauto].
  - destruct (IH (higher m t)) as [H1 H2]. rewrite higher_rank in H1.
    split; [lia|]. intros u [E | Hu]; [subst u; lia | apply H2, Hu].
Qed.

Lemma reduce_higher_attained (l : list Tutorial) (m : Difficulty) :
  Array.reduce higher m l = m \/
  exists t, In t l /\ Data.difficulty (data t) = Array.reduce higher m l.
Proof.
  unfold Array.reduce. revert m.
  induction l as [|t l IH]; intros m; simpl; [left; reflexivity|].
  destruct (IH (higher m t)) as [E | [u [Hu E]]].
  - rewrite E. destruct (higher_choice m t) as [E' | E'].
    + left. exact E'.
    + right. exists t. split; [left; reflexivity | symmetry; exact E'].
  - right. exists u. split; [right; exact Hu | exact E].
Qed.

Lemma rank_inj (a b : Difficulty) : rank a = rank b -> a = b.
Proof. destruct a, b; simpl; intros H; try reflexivity; discriminate. Qed.

Lemma rank_nonneg (a : Difficulty) : 0 <= rank a.
Proof. destruct a; simpl; lia. Qed.

(** ** The default sort of strings *)

Lemma string_cmp_total (a b : string) :
  0 < string_cmp a b -> string_cmp b a <= 0.
Proof.
  unfold string_cmp. rewrite (String.compare_antisym b a).
  destruct (String.compare a b); simpl; lia.
Qed.

Lemma string_cmp_le (a b : string) :
  string_cmp a b <= 0 <-> String_as_OT.lt a b \/ a = b.
Proof.
  unfold string_cmp. destruct (String.compare a b) eqn:E.
  - apply String_as_OT.cmp_eq in E. split; [auto | lia].
  - apply String_as_OT.cmp_lt in E. split; [auto | lia].
  - split; [lia|]. intros [H | H].
    + apply String_as_OT.cmp_lt in H. unfold String_as_OT.cmp in H. congruence.
    + apply String_as_OT.cmp_eq in H. unfold String_as_OT.cmp in H. congruence.
Qed.

Lemma string_cmp_trans (a b c : string) :
  string_cmp a b <= 0 -> string_cmp b c <= 0 -> string_cmp a c <= 0.
Proof.
  rewrite !string_cmp_le. intros [H1 | H1] [H2 | H2]; subst; auto.
  left. eapply String_as_OT.lt_trans; eassumption.
Qed.

Lemma sorted_NoDup_strict (l : list string) :
  StronglySorted (fun a b => string_cmp a b <= 0) l -> NoDup l ->
  StronglySorted (fun a b => String.compare a b = Lt) l.
Proof.
  induction 1 as [|a l Hs IH Ha]; intros Hnd; constructor;
    inversion Hnd as [|? ? Hnin Hnd']; subst.
  - apply IH, Hnd'.
  - apply Forall_forall. intros b Hb. rewrite Forall_forall in Ha.
    specialize (Ha b Hb). apply string_cmp_le in Ha. destruct Ha as [H | H].
    + apply String_as_OT.cmp_lt in H. exact H.
    + subst b. contradiction.
Qed.

(** [[...new Set(xs)].sort()] is strictly ascending and has the values of [xs]. *)
Lemma sorted_set (xs : list string) :
  StronglySorted (fun a b => String.compare a b = Lt)
                 (sort_default (first_seen xs)) /\
  forall x, In x (sort_default (first_seen xs)) <-> In x xs.
Proof.
  unfold sort_default. split.
  - apply sorted_NoDup_strict.
    + apply sort_sorted; [apply string_cmp_total | apply string_cmp_trans].
    + eapply Permutation_NoDup.
      * apply Permutation_sym, sort_perm.
      * apply first_seen_NoDup.
  - intros x. rewrite sort_In. apply first_seen_In.
Qed.

Lemma StronglySorted_impl {A : Type} (R R' : A -> A -> Prop) (l : list A) :
  (forall a b, R a b -> R' a b) -> StronglySorted R l -> StronglySorted R' l.
Proof.
  intros HR. induction 1 as [|a l _ IH Hall]; constructor; [exact IH|].
  eapply Forall_impl; [|exact Hall]. apply HR.
Qed.

(** * The Organizer *)

(** C1.  The Organizer returns a result whose [standalone] list is a
    permutation of the input tutorials without a (non-empty) [series] and
    whose series' [tutorials] lists, concatenated, are a permutation of the
    input tutorials with a non-empty [series]: no tutorial is lost or
    duplicated. *)
Theorem organize_partition (tutorials : list Tutorial) :
  exists r,
    getOrganizedTutorials tutorials = Normal r /\
    Permutation (standalone r)
                (filter (fun t => negb (truthy (Data.series (data t)))) tutorials) /\
    Permutation (List.concat (map Series.tutorials (series r)))
                (filter (fun t => truthy (Data.series (data t))) tutorials).
Proof.
  destruct (getOrganizedTutorials_steps tutorials) as [ss [Hr HF]].
  eexists. split; [exact Hr|]. simpl. split.
  - apply sort_perm.
  - eapply Permutation_trans; [apply (series_tutorials_perm _ _ _ HF)|].
    eapply Permutation_trans.
    + apply concat_members_perm;
        [apply first_seen_NoDup | apply seriesKeys_nonempty].
    + rewrite filter_seriesKeys. apply Permutation_refl.
Qed.

(** C2.  The [series] list of the result has exactly one [Series] per
    distinct non-empty [series] value of the input, in the order in which
    each value is first encountered; the [tutorials] of each are its members
    in non-decreasing [seriesOrder] (a missing one treated as 0), members of
    equal order in their input order. *)
Theorem organize_series_order (tutorials : list Tutorial) :
  exists r,
    getOrganizedTutorials tutorials = Normal r /\
    map Series.slug (series r) =
      first_seen (map seriesOf (filter hasSeries tutorials)) /\
    NoDup (map Series.slug (series r)) /\
    (forall k, In k (map Series.slug (series r)) <->
               exists t, In t tutorials /\
                         Data.series (data t) = Some k /\ k <> EmptyString) /\
    forall s, In s (series r) ->
      StronglySorted (fun a b => effectiveOrder a <= effectiveOrder b)
                     (Series.tutorials s) /\
      forall o,
        filter (keyIs effectiveOrder o) (Series.tutorials s) =
        filter (keyIs effectiveOrder o)
               (filter (memberOf (Series.slug s)) tutorials).
Proof.
  destruct (getOrganizedTutorials_steps tutorials) as [ss [Hr HF]].
  eexists. split; [exact Hr|]. simpl.
  rewrite (series_slugs _ _ _ HF).
  split; [reflexivity|]. split; [apply first_seen_NoDup|].
  split; [apply seriesKeys_spec|].
  intros s Hs. destruct (series_built _ _ _ s HF Hs) as [_ Hb].
  apply buildSeries_fields in Hb. destruct Hb as [_ [Ht _]].
  apply (sortedMembers_iff tutorials (Series.slug s)). exact Ht.
Qed.

(** C6.  The [standalone] list of the result holds the tutorials without a
    [series] in descending effective date ([dateUpdated] if present, else
    [dateCreated]), those of equal effective date in their input order. *)
Theorem organize_standalone_order (tutorials : list Tutorial) :
  exists r,
    getOrganizedTutorials tutorials = Normal r /\
    StronglySorted (fun a b => effectiveDate a >= effectiveDate b)
                   (standalone r) /\
    forall d,
      filter (keyIs effectiveDate d) (standalone r) =
      filter (keyIs effectiveDate d)
             (filter (fun t => negb (truthy (Data.series (data t)))) tutorials).
Proof.
  destruct (getOrganizedTutorials_steps tutorials) as [ss [Hr _]].
  eexists. split; [exact Hr|]. simpl. split.
  - eapply StronglySorted_impl;
      [| apply (sort_key_sorted byDateDesc (fun t => - effectiveDate t)
                  byDateDesc_key)].
    simpl. intros a b Hab. lia.
  - intros d.
    pose proof (sort_stable byDateDesc (fun t => - effectiveDate t)
                  byDateDesc_key (- d)
                  (filter (fun t => negb (hasSeries t)) tutorials)) as H.
    assert (E : forall l, filter (keyIs (fun t => - effectiveDate t) (- d)) l =
                          filter (keyIs effectiveDate d) l).
    { intros l. apply filter_ext. intros t. unfold keyIs.
      destruct (Z.eqb_spec (effectiveDate t) d);
        destruct (Z.eqb_spec (- effectiveDate t) (- d)); try reflexivity; lia. }
    rewrite !E in H. exact H.
Qed.

(** C7.  Every [Series] of the result takes its [title], [description] and
    [category] from its index tutorial: the first of its sorted members whose
    [seriesOrder] is exactly 0, or the first sorted member when none has
    [seriesOrder] 0.  The list the index tutorial is taken from is
    [tutorials], the members of the series sorted by [seriesOrder] ascending
    (a missing one treated as 0, members of equal order in their input
    order); the index tutorial stays in it, and it holds all the members of
    the series. *)
Theorem organize_index_tutorial (tutorials : list Tutorial) :
  exists r,
    getOrganizedTutorials tutorials = Normal r /\
    forall s, In s (series r) ->
      StronglySorted (fun a b => effectiveOrder a <= effectiveOrder b)
                     (Series.tutorials s) /\
      (forall o,
          filter (keyIs effectiveOrder o) (Series.tutorials s) =
          filter (keyIs effectiveOrder o)
                 (filter (memberOf (Series.slug s)) tutorials)) /\
      exists index,
        indexTutorial (Series.tutorials s) index /\
        Series.title s = Data.title (data index) /\
        Series.description s = Data.description (data index) /\
        Series.category s = Data.category (data index) /\
        In index (Series.tutorials s) /\
        Permutation (Series.tutorials s)
                    (filter (memberOf (Series.slug s)) tutorials).
Proof.
  destruct (getOrganizedTutorials_steps tutorials) as [ss [Hr HF]].
  eexists. split; [exact Hr|]. simpl.
  intros s Hs. destruct (series_built _ _ _ s HF Hs) as [_ Hb].
  apply buildSeries_fields in Hb.
  destruct Hb as [_ [Ht [_ [index [Hi [H1 [H2 H3]]]]]]].
  assert (Hsorted : sortedMembers tutorials (Series.slug s) (Series.tutorials s))
    by (apply sortedMembers_iff; exact Ht).
  destruct Hsorted as [Hord Hstable].
  split; [exact Hord|]. split; [exact Hstable|].
  rewrite <- Ht in Hi. apply designate_spec in Hi.
  exists index. repeat split; try assumption.
  - destruct Hi as [[before [after [E _]]] | [_ E]].
    + rewrite E. apply in_elt.
    + destruct (Series.tutorials s); [discriminate|].
      injection E as <-. left. reflexivity.
  - rewrite Ht. apply sort_perm.
Qed.

(** C8.  The [difficulty] of every [Series] of the result is the maximum of
    its members' difficulties under beginner < intermediate < advanced: no
    member is above it, a member has it, and it is the fold of the maximum
    over the members starting from beginner. *)
Theorem organize_highest_difficulty (tutorials : list Tutorial) :
  exists r,
    getOrganizedTutorials tutorials = Normal r /\
    forall s, In s (series r) ->
      (forall t, In t (Series.tutorials s) ->
                 rank (Data.difficulty (data t)) <= rank (Series.difficulty s)) /\
      (exists t, In t (Series.tutorials s) /\
                 Data.difficulty (data t) = Series.difficulty s) /\
      rank (Series.difficulty s) =
        fold_left (fun m t => Z.max m (rank (Data.difficulty (data t))))
                  (Series.tutorials s) (rank beginner).
Proof.
  destruct (getOrganizedTutorials_steps tutorials) as [ss [Hr HF]].
  eexists. split; [exact Hr|]. simpl.
  intros s Hs. destruct (series_built _ _ _ s HF Hs) as [Hk Hb].
  apply buildSeries_fields in Hb. destruct Hb as [_ [Ht [Hd _]]].
  rewrite <- Ht in Hd. rewrite Hd.
  destruct (reduce_higher_upper (Series.tutorials s) beginner) as [_ Hup].
  split; [exact Hup|]. split; [|apply reduce_higher_rank].
  destruct (reduce_higher_attained (Series.tutorials s) beginner) as [E | H];
    [|exact H].
  destruct (Series.tutorials s) as [|t l] eqn:El.
  - exfalso. symmetry in Ht. apply sort_nil_inv in Ht.
    exact (members_nonempty _ _ Hk Ht).
  - exists t. split; [left; reflexivity|].
    rewrite E. apply rank_inj.
    assert (H : rank (Data.difficulty (data t)) <= rank beginner).
    { rewrite <- E. apply Hup. left. reflexivity. }
    pose proof (rank_nonneg (Data.difficulty (data t))). simpl in *. lia.
Qed.

(** C9.  [categories] is strictly ascending (sorted, without duplicates) and
    holds exactly the [category] values of all input tutorials; [tags] is
    strictly ascending and holds exactly the tags of all input tutorials.
    Tutorials inside a series count like the others. *)
Theorem organize_categories_tags (tutorials : list Tutorial) :
  exists r,
    getOrganizedTutorials tutorials = Normal r /\
    StronglySorted (fun a b => String.compare a b = Lt) (categories r) /\
    (forall c, In c (categories r) <->
               exists t, In t tutorials /\ Data.category (data t) = c) /\
    StronglySorted (fun a b => String.compare a b = Lt) (tags r) /\
    (forall g, In g (tags r) <->
               exists t, In t tutorials /\ In g (Data.tags (data t))).
Proof.
  destruct (getOrganizedTutorials_steps tutorials) as [ss [Hr _]].
  eexists. split; [exact Hr|]. simpl.
  destruct (sorted_set (map (fun t => Data.category (data t)) tutorials))
    as [Hc1 Hc2].
  destruct (sorted_set (flat_map (fun t => Data.tags (data t)) tutorials))
    as [Ht1 Ht2].
  split; [exact Hc1|]. split.
  - intros c. rewrite Hc2, in_map_iff. split; intros [t H]; exists t; tauto.
  - split; [exact Ht1|]. intros g. rewrite Ht2, in_flat_map. tauto.
Qed.

(** * The Navigator *)

Lemma get_of_nat {A : Type} (l : list A) (i : nat) :
  Array.get l (Z.of_nat i) = nth_error l i.
Proof.
  unfold Array.get. destruct (Z.ltb_spec (Z.of_nat i) 0); [lia|].
  rewrite Nat2Z.id. reflexivity.
Qed.

Lemma findIndex_from_first {A : Type} (p : A -> bool) (l : list A) :
  forall (i : nat) (x : A) (start : Z),
    nth_error l i = Some x -> p x = true ->
    (forall j y, (j < i)%nat -> nth_error l j = Some y -> p y = false) ->
    Array.findIndex_from p l start = start + Z.of_nat i.
Proof.
  induction l as [|y l IH]; intros i x start Hn Hp Hfirst.
  - destruct i; discriminate.
  - destruct i as [|i]; simpl in *.
    + injection Hn as ->. rewrite Hp. lia.
    + rewrite (Hfirst 0%nat y) by (reflexivity || lia).
      rewrite (IH i x (start + 1) Hn Hp); [lia|].
      intros j z Hj Hz. apply (Hfirst (S j) z); [lia | exact Hz].
Qed.

Lemma findIndex_from_none {A : Type} (p : A -> bool) (l : list A) (start : Z) :
  Forall (fun y => p y = false) l -> Array.findIndex_from p l start = -1.
Proof.
  intros H. revert start. induction H as [|y l Hy _ IH]; intros start; simpl.
  - reflexivity.
  - rewrite Hy. apply IH.
Qed.

Lemma truthy_Some (k : string) :
  k <> EmptyString -> truthy (Some k) = true.
Proof. intros H. simpl. apply negb_true_iff, String.eqb_neq, H. Qed.

(** The result on a tutorial that has a series, in one equation. *)
Lemma getSeriesNavigation_Some (ts : list Tutorial) (t : Tutorial) (k : string) :
  Data.series (data t) = Some k -> k <> EmptyString ->
  getSeriesNavigation ts t =
  let seriesTutorials := getSeriesTutorials ts k in
  let currentIndex :=
    Array.findIndex (fun m => String.eqb (slug m) (slug t)) seriesTutorials in
  Normal (Some (Nav.mk
    seriesTutorials
    currentIndex
    (if 0 <? currentIndex
     then element seriesTutorials (currentIndex - 1) else Null)
    (if currentIndex <? Array.length seriesTutorials - 1
     then element seriesTutorials (currentIndex + 1) else Null))).
Proof.
  intros Hs Hk. unfold getSeriesNavigation.
  rewrite Hs, (truthy_Some k Hk). reflexivity.
Qed.

Lemma getSeriesNavigation_null (ts : list Tutorial) (t : Tutorial) :
  getSeriesNavigation ts t = Normal None <->
  Data.series (data t) = None \/ Data.series (data t) = Some EmptyString.
Proof.
  unfold getSeriesNavigation.
  destruct (Data.series (data t)) as [k|] eqn:Es; simpl.
  - destruct (String.eqb_spec k EmptyString) as [E | E]; simpl.
    + subst k. split; auto.
    + split; [discriminate|]. intros [H | H]; congruence.
  - split; auto.
Qed.

(** C3.  The Navigator returns [null] exactly when the [series] of the
    tutorial is absent or empty.  Otherwise, when the tutorial is found by
    its [slug] at position [i] of the sorted members of its series (the
    first position that has this slug; slugs being unique, the only one), the
    result has [current = i], [series] the sorted members, [prev] null
    exactly when [i = 0] and else the member at [i - 1], [next] null exactly
    when [i] is the last position and else the member at [i + 1]. *)
Theorem navigation_position (tutorials : list Tutorial) (tutorial : Tutorial) :
  (getSeriesNavigation tutorials tutorial = Normal None <->
   Data.series (data tutorial) = None \/
   Data.series (data tutorial) = Some EmptyString) /\
  forall (k : string) (sorted : list Tutorial) (i : nat) (m : Tutorial),
    Data.series (data tutorial) = Some k -> k <> EmptyString ->
    sortedMembers tutorials k sorted ->
    nth_error sorted i = Some m -> slug m = slug tutorial ->
    (forall j m', (j < i)%nat -> nth_error sorted j = Some m' ->
                  slug m' <> slug tutorial) ->
    exists nav,
      getSeriesNavigation tutorials tutorial = Normal (Some nav) /\
      Nav.series nav = sorted /\
      Nav.current nav = Z.of_nat i /\
      (Nav.prev nav = Null <-> i = 0%nat) /\
      (forall j, i = S j ->
                 exists p, nth_error sorted j = Some p /\ Nav.prev nav = Obj p) /\
      (Nav.next nav = Null <-> S i = List.length sorted) /\
      (S i <> List.length sorted ->
       exists n, nth_error sorted (S i) = Some n /\ Nav.next nav = Obj n).
Proof.
  split; [apply getSeriesNavigation_null|].
  intros k sorted i m Hs Hk Hsorted Hi Hm Hfirst.
  apply sortedMembers_iff in Hsorted.
  rewrite (getSeriesNavigation_Some tutorials tutorial k Hs Hk).
  rewrite <- Hsorted. cbv zeta.
  assert (Hidx : Array.findIndex (fun m0 => String.eqb (slug m0) (slug tutorial))
                                 sorted = Z.of_nat i).
  { unfold Array.findIndex.
    rewrite (findIndex_from_first _ sorted i m 0 Hi); [lia | |].
    - apply String.eqb_eq, Hm.
    - intros j y Hj Hy. apply String.eqb_neq. exact (Hfirst j y Hj Hy). }
  rewrite Hidx.
  assert (Hlen : (i < List.length sorted)%nat).
  { apply nth_error_Some. congruence. }
  eexists. split; [reflexivity|]. cbn [Nav.series Nav.current Nav.prev Nav.next].
  split; [reflexivity|]. split; [reflexivity|].
  unfold element, Array.length.
  assert (Hprev : forall j, i = S j ->
            exists p, nth_error sorted j = Some p /\
              (if 0 <? Z.of_nat i
               then match Array.get sorted (Z.of_nat i - 1) with
                    | Some t => Obj t
                    | None => Undefined
                    end
               else Null) = Obj p).
  { intros j Ej. subst i.
    destruct (nth_error sorted j) as [p|] eqn:Ep.
    - exists p. split; [reflexivity|].
      destruct (Z.ltb_spec 0 (Z.of_nat (S j))); [|lia].
      replace (Z.of_nat (S j) - 1) with (Z.of_nat j) by lia.
      rewrite get_of_nat, Ep. reflexivity.
    - apply nth_error_None in Ep. lia. }
  assert (Hnext : S i <> List.length sorted ->
            exists n, nth_error sorted (S i) = Some n /\
              (if Z.of_nat i <? Z.of_nat (List.length sorted) - 1
               then match Array.get sorted (Z.of_nat i + 1) with
                    | Some t => Obj t
                    | None => Undefined
                    end
               else Null) = Obj n).
  { intros Hne.
    destruct (nth_error sorted (S i)) as [n|] eqn:En.
    - exists n. split; [reflexivity|].
      destruct (Z.ltb_spec (Z.of_nat i) (Z.of_nat (List.length sorted) - 1)); [|lia].
      replace (Z.of_nat i + 1) with (Z.of_nat (S i)) by lia.
      rewrite get_of_nat, En. reflexivity.
    - apply nth_error_None in En. lia. }
  repeat split.
  - intros Hnull. destruct i as [|j]; [reflexivity|].
    destruct (Hprev j eq_refl) as [p [_ Hp]]. congruence.
  - intros ->. reflexivity.
  - exact Hprev.
  - intros Hnull. destruct (Nat.eq_dec (S i) (List.length sorted)) as [E | E];
      [exact E|].
    destruct (Hnext E) as [n [_ Hn]]. congruence.
  - intros E. destruct (Z.ltb_spec (Z.of_nat i) (Z.of_nat (List.length sorted) - 1));
      [lia | reflexivity].
  - exact Hnext.
Qed.

Lemma navigation_position_witness :
  exists nav,
    getSeriesNavigation example_collection rust_installation = Normal (Some nav) /\
    Nav.series nav = [rust_index; rust_installation; rust_ownership] /\
    Nav.current nav = 1 /\
    Nav.prev nav = Obj rust_index /\
    Nav.next nav = Obj rust_ownership.
Proof.
  destruct (navigation_position example_collection rust_installation) as [_ H].
  destruct (H "rust-basics"%string
              [rust_index; rust_installation; rust_ownership]
              1%nat rust_installation)
    as [nav [H1 [H2 [H3 [_ [H5 [_ H7]]]]]]].
  - reflexivity.
  - discriminate.
  - apply sortedMembers_iff. reflexivity.
  - reflexivity.
  - reflexivity.
  - intros j m' Hj. destruct j as [|j]; [|lia].
    simpl. intros E. injection E as <-. discriminate.
  - exists nav. split; [exact H1|]. split; [exact H2|]. split; [exact H3|].
    destruct (H5 0%nat eq_refl) as [p [Hp1 Hp2]].
    destruct H7 as [n [Hn1 Hn2]]; [simpl; lia|].
    simpl in Hp1, Hn1. injection Hp1 as <-. injection Hn1 as <-.
    split; assumption.
Defined.

(** Unique slugs stay unique in any selection of the tutorials. *)
Lemma unique_slugs_filter (select : Tutorial -> bool) (ts : list Tutorial) :
  NoDup (map slug ts) -> NoDup (map slug (filter select ts)).
Proof.
  intros Hnd. induction ts as [|t ts IH]; simpl; [constructor|].
  simpl in Hnd. apply NoDup_cons_iff in Hnd. destruct Hnd as [Ht Hts].
  destruct (select t); simpl; [|exact (IH Hts)].
  apply NoDup_cons; [|exact (IH Hts)].
  rewrite in_map_iff. intros [u [E Hu]]. apply filter_In in Hu.
  apply Ht. rewrite <- E. apply in_map. tauto.
Qed.

(** With unique slugs a tutorial occurs at one position only, which is
    then the first. *)
Lemma unique_slug_first_match (ts : list Tutorial) (k : string)
  (sorted : list Tutorial) (t m : Tutorial) (i : nat) :
  NoDup (map slug ts) -> sortedMembers ts k sorted ->
  nth_error sorted i = Some m -> slug m = slug t ->
  forall j m', (j < i)%nat -> nth_error sorted j = Some m' -> slug m' <> slug t.
Proof.
  intros Hnd Hs Hi Hm j m' Hj Hj' E.
  apply sortedMembers_iff in Hs.
  assert (Hnd' : NoDup (map slug sorted)).
  { subst sorted. unfold getSeriesTutorials.
    eapply Permutation_NoDup.
    - apply Permutation_map, Permutation_sym, sort_perm.
    - apply unique_slugs_filter, Hnd. }
  assert (Hlen : (j < List.length (map slug sorted))%nat).
  { rewrite length_map. apply nth_error_Some. congruence. }
  pose proof (proj1 (NoDup_nth_error (map slug sorted)) Hnd' j i Hlen) as Hinj.
  rewrite !nth_error_map, Hi, Hj' in Hinj. simpl in Hinj.
  assert (j = i) by (apply Hinj; congruence). lia.
Qed.

(** C10.  For a tutorial with a non-empty [series] whose [slug] is not
    among the members of that series, the Navigator does not throw: it
    returns an object with [current = -1], [prev] null, [series] the sorted
    members and [next] the first of them, or null when there is none; there
    is none exactly when no tutorial of the list has this [series]. *)
Theorem navigation_not_in_series (tutorials : list Tutorial) (tutorial : Tutorial)
  (k : string) (sorted : list Tutorial) :
  Data.series (data tutorial) = Some k -> k <> EmptyString ->
  sortedMembers tutorials k sorted ->
  (forall m, In m tutorials -> Data.series (data m) = Some k ->
             slug m <> slug tutorial) ->
  exists nav,
    getSeriesNavigation tutorials tutorial = Normal (Some nav) /\
    Nav.current nav = -1 /\
    Nav.prev nav = Null /\
    Nav.series nav = sorted /\
    Nav.next nav = match sorted with
                   | first :: _ => Obj first
                   | [] => Null
                   end /\
    (sorted = [] <->
     forall m, In m tutorials -> Data.series (data m) <> Some k).
Proof.
  intros Hs Hk Hsorted Habsent.
  apply sortedMembers_iff in Hsorted.
  rewrite (getSeriesNavigation_Some tutorials tutorial k Hs Hk).
  rewrite <- Hsorted. cbv zeta.
  assert (Hmem : forall m, In m sorted <->
                           In m tutorials /\ Data.series (data m) = Some k).
  { intros m. rewrite Hsorted. unfold getSeriesTutorials.
    rewrite sort_In, filter_In. unfold memberOf.
    destruct (Data.series (data m)) as [s'|].
    - rewrite String.eqb_eq. split; intros [H1 H2]; split; congruence.
    - split; intros [_ H]; discriminate. }
  assert (Hidx : Array.findIndex (fun m => String.eqb (slug m) (slug tutorial))
                                 sorted = -1).
  { apply findIndex_from_none, Forall_forall. intros m Hin.
    apply Hmem in Hin. apply String.eqb_neq, Habsent; tauto. }
  rewrite Hidx. eexists. split; [reflexivity|].
  cbn [Nav.series Nav.current Nav.prev Nav.next].
  repeat split.
  - unfold Array.length, element. destruct sorted as [|first rest]; reflexivity || idtac.
    simpl List.length.
    destruct (Z.ltb_spec (-1) (Z.of_nat (S (List.length rest)) - 1)); [|lia].
    reflexivity.
  - intros E m Hin Hm. rewrite E in Hmem. apply (Hmem m). tauto.
  - intros H. destruct sorted as [|first rest]; [reflexivity|]. exfalso.
    destruct (proj1 (Hmem first) (or_introl eq_refl)) as [H1 H2].
    exact (H first H1 H2).
Qed.

Lemma navigation_not_in_series_witness :
  exists nav,
    getSeriesNavigation [docker_basics; rust_installation; rust_index]
                        rust_ownership = Normal (Some nav) /\
    Nav.current nav = -1 /\
    Nav.prev nav = Null /\
    Nav.series nav = [rust_index; rust_installation] /\
    Nav.next nav = Obj rust_index.
Proof.
  destruct (navigation_not_in_series
              [docker_basics; rust_installation; rust_index] rust_ownership
              "rust-basics"%string [rust_index; rust_installation])
    as [nav [H1 [H2 [H3 [H4 [H5 _]]]]]].
  - reflexivity.
  - discriminate.
  - apply sortedMembers_iff. reflexivity.
  - intros m [E | [E | [E | []]]] _; subst m; discriminate.
  - exists nav. repeat split; assumption.
Defined.

(** C4, as the code has it.  The Navigator never throws; for a tutorial
    with a non-empty [series] whose [slug] no tutorial of the list has, it
    returns an object whose [current] is [-1]. *)
Theorem navigation_never_throws (tutorials : list Tutorial) (tutorial : Tutorial) :
  (exists r, getSeriesNavigation tutorials tutorial = Normal r) /\
  (truthy (Data.series (data tutorial)) = true ->
   (forall m, In m tutorials -> slug m <> slug tutorial) ->
   exists nav,
     getSeriesNavigation tutorials tutorial = Normal (Some nav) /\
     Nav.current nav = -1).
Proof.
  split.
  - unfold getSeriesNavigation.
    destruct (negb (truthy (Data.series (data tutorial)))); [eexists; reflexivity|].
    destruct (Data.series (data tutorial)); eexists; reflexivity.
  - intros Ht Habsent.
    destruct (hasSeries_Some tutorial Ht) as [Hs Hk].
    rewrite (getSeriesNavigation_Some tutorials tutorial _ Hs Hk). cbv zeta.
    eexists. split; [reflexivity|]. cbn [Nav.current].
    apply findIndex_from_none, Forall_forall. intros m Hm.
    unfold getSeriesTutorials in Hm. apply sort_In, filter_In in Hm.
    apply String.eqb_neq, Habsent. tauto.
Qed.

Lemma navigation_never_throws_witness :
  exists nav,
    getSeriesNavigation (getPublishedTutorials true example_collection)
                        rust_ownership = Normal (Some nav) /\
    Nav.current nav = -1.
Proof.
  destruct (navigation_never_throws
              (getPublishedTutorials true example_collection) rust_ownership)
    as [_ H].
  apply H.
  - reflexivity.
  - intros m [E | [E | [E | []]]]; subst m; discriminate.
Defined.

(** C4 as stated fails: in a production build the draft [rust_ownership]
    is not among the published tutorials, and the Navigator returns an
    object for it instead of throwing. *)
Lemma navigation_absent_tutorial_returns :
  let published := getPublishedTutorials true example_collection in
  published = [docker_basics; rust_installation; rust_index] /\
  truthy (Data.series (data rust_ownership)) = true /\
  (forall m, In m published -> slug m <> slug rust_ownership) /\
  getSeriesNavigation published rust_ownership =
    Normal (Some (Nav.mk [rust_index; rust_installation] (-1) Null
                         (Obj rust_index))) /\
  ~ (exists e, getSeriesNavigation published rust_ownership = Throw e).
Proof.
  cbv zeta. split; [reflexivity|]. split; [reflexivity|]. split.
  - intros m [E | [E | [E | []]]]; subst m; discriminate.
  - split; [reflexivity|]. intros [e H]. discriminate H.
Qed.

(** * With and without the types

    On well-typed records the run-time reading [Raw] does what the typed
    functions do. *)

Section Erasure.
Context {A B : Type}.
Variable f : A -> B.

Lemma filter_map_comm (p : B -> bool) (q : A -> bool) (l : list A) :
  (forall x, p (f x) = q x) -> filter p (map f l) = map f (filter q l).
Proof.
  intros H. induction l as [|x l IH]; simpl; [reflexivity|].
  rewrite H, IH. destruct (q x); reflexivity.
Qed.

Lemma find_map_comm (p : B -> bool) (q : A -> bool) (l : list A) :
  (forall x, p (f x) = q x) ->
  List.find p (map f l) = option_map f (List.find q l).
Proof.
  intros H. induction l as [|x l IH]; simpl; [reflexivity|].
  rewrite H, IH. destruct (q x); reflexivity.
Qed.

Lemma insert_map (cmp' : B -> B -> Z) (cmp : A -> A -> Z) (x : A) (l : list A) :
  (forall a b, cmp' (f a) (f b) = cmp a b) ->
  Array.insert cmp' (f x) (map f l) = map f (Array.insert cmp x l).
Proof.
  intros H. induction l as [|y l IH]; simpl; [reflexivity|].
  rewrite H, IH. destruct (0 <? cmp x y); reflexivity.
Qed.

Lemma sort_map (cmp' : B -> B -> Z) (cmp : A -> A -> Z) (l : list A) :
  (forall a b, cmp' (f a) (f b) = cmp a b) ->
  Array.sort cmp' (map f l) = map f (Array.sort cmp l).
Proof.
  intros H. induction l as [|x l IH]; simpl; [reflexivity|].
  rewrite IH. apply insert_map, H.
Qed.

Lemma insertM_map (cmpM : B -> B -> completion Z) (cmp : A -> A -> Z)
  (x : A) (l : list A) :
  (forall a b, cmpM (f a) (f b) = Normal (cmp a b)) ->
  Array.insertM cmpM (f x) (map f l) = Normal (map f (Array.insert cmp x l)).
Proof.
  intros H. induction l as [|y l IH]; simpl; [reflexivity|].
  rewrite H. simpl. destruct (0 <? cmp x y); [|reflexivity].
  rewrite IH. reflexivity.
Qed.

Lemma sortM_map (cmpM : B -> B -> completion Z) (cmp : A -> A -> Z)
  (l : list A) :
  (forall a b, cmpM (f a) (f b) = Normal (cmp a b)) ->
  Array.sortM cmpM (map f l) = Normal (map f (Array.sort cmp l)).
Proof.
  intros H. induction l as [|x l IH]; simpl; [reflexivity|].
  rewrite IH. simpl. apply insertM_map, H.
Qed.

Lemma JsSet_from_map (eqb' : B -> B -> bool) (eqb : A -> A -> bool)
  (xs : list A) :
  (forall a b, eqb' (f a) (f b) = eqb a b) ->
  JsSet.from eqb' (map f xs) = map f (JsSet.from eqb xs).
Proof.
  intros H. unfold JsSet.from.
  change (@nil B) with (map f []). generalize (@nil A) as acc.
  induction xs as [|x xs IH]; intros acc; simpl; [reflexivity|].
  rewrite <- IH. f_equal. unfold JsSet.add, JsSet.has.
  assert (E : existsb (eqb' (f x)) (map f acc) = existsb (eqb x) acc).
  { induction acc as [|y acc IHa]; simpl; [reflexivity|].
    rewrite H, IHa. reflexivity. }
  rewrite E. destruct (existsb (eqb x) acc); [reflexivity|].
  rewrite map_app. reflexivity.
Qed.
End Erasure.

Lemma sort_default_undef_Some (l : list string) :
  Raw.sort_default_undef (map Some l) = map Some (sort_default l).
Proof.
  unfold Raw.sort_default_undef.
  replace (flat_map (fun o : option string =>
                       match o with Some x => [x] | None => [] end)
                    (map Some l)) with l.
  - replace (filter (fun o : option string =>
                       match o with Some _ => false | None => true end)
                    (map Some l)) with (@nil (option string)).
    + apply app_nil_r.
    + induction l as [|x l IH]; simpl; [reflexivity | exact IH].
  - induction l as [|x l IH]; simpl; [reflexivity|]. rewrite <- IH. reflexivity.
Qed.

Lemma get_eraseMap (m : StringMap.t (list Tutorial)) (k : string) :
  StringMap.get (eraseMap m) k = option_map (map erase) (StringMap.get m k).
Proof.
  induction m as [|[k' v] m IH]; simpl; [reflexivity|].
  destruct (String.eqb k k'); [reflexivity | exact IH].
Qed.

Lemma set_eraseMap (m : StringMap.t (list Tutorial)) (k : string)
  (v : list Tutorial) :
  StringMap.set (eraseMap m) k (map erase v) = eraseMap (StringMap.set m k v).
Proof.
  induction m as [|[k' v'] m IH]; simpl; [reflexivity|].
  destruct (String.eqb k k'); simpl; [reflexivity|].
  rewrite IH. reflexivity.
Qed.

Lemma groupStep_erase (m : StringMap.t (list Tutorial)) (t : Tutorial) :
  Raw.groupStep (eraseMap m) (erase t) = eraseMap (groupStep m t).
Proof.
  unfold Raw.groupStep, groupStep. simpl.
  destruct (Data.series (data t)) as [k|]; [|reflexivity].
  unfold StringMap.has. rewrite get_eraseMap.
  destruct (StringMap.get m k) as [items|] eqn:Eg; simpl.
  - rewrite get_eraseMap, Eg. simpl.
    change [erase t] with (map erase [t]).
    rewrite <- map_app. apply set_eraseMap.
  - change (@nil Raw.Tutorial) with (map erase []).
    rewrite set_eraseMap, get_eraseMap.
    destruct (StringMap.get (StringMap.set m k []) k) as [items|]; simpl;
      [|reflexivity].
    change [erase t] with (map erase [t]).
    rewrite <- map_app. apply set_eraseMap.
Qed.

Lemma group_fold_erase (l : list Tutorial) (m : StringMap.t (list Tutorial)) :
  fold_left Raw.groupStep (map erase l) (eraseMap m) =
  eraseMap (fold_left groupStep l m).
Proof.
  revert m. induction l as [|t l IH]; intros m; simpl; [reflexivity|].
  rewrite groupStep_erase. apply IH.
Qed.

Lemma reduce_higher_erase (l : list Tutorial) (m : Difficulty) :
  Array.reduce Raw.higher (Some m) (map erase l) =
  Some (Array.reduce higher m l).
Proof.
  unfold Array.reduce. revert m.
  induction l as [|t l IH]; intros m; simpl; [reflexivity|].
  rewrite <- IH. f_equal. unfold Raw.higher, higher. simpl.
  destruct (_ <? _); reflexivity.
Qed.

Lemma buildSeries_erase (k : string) (items : list Tutorial) :
  Raw.buildSeries (k, map erase items) =
  match buildSeries (k, items) with
  | Normal s => Normal (eraseSeries s)
  | Throw e => Throw e
  end.
Proof.
  unfold Raw.buildSeries, buildSeries.
  rewrite (sort_map erase Raw.bySeriesOrder bySeriesOrder) by reflexivity.
  unfold Array.find.
  rewrite (find_map_comm erase Raw.isIndex isIndex) by reflexivity.
  rewrite reduce_higher_erase.
  destruct (List.find isIndex (Array.sort bySeriesOrder items)) as [index|];
    simpl; [reflexivity|].
  destruct (Array.sort bySeriesOrder items) as [|x l]; reflexivity.
Qed.

Lemma buildAll_erase (entries : StringMap.t (list Tutorial)) :
  Raw.buildAll (eraseMap entries) =
  match buildAll entries with
  | Normal ss => Normal (map eraseSeries ss)
  | Throw e => Throw e
  end.
Proof.
  induction entries as [|[k items] entries IH];
    cbn [eraseMap map Raw.buildAll buildAll fst snd]; [reflexivity|].
  fold (eraseMap entries).
  rewrite buildSeries_erase, IH.
  destruct (buildSeries (k, items)); cbn [bind]; [|reflexivity].
  destruct (buildAll entries); reflexivity.
Qed.

(** C5, as the code has it.  The Organizer validates nothing itself: the
    required fields are there by the type [Tutorial].  On every list of
    well-typed records it returns a result, at run time too, whichever
    optional fields ([seriesOrder], [dateUpdated]) are missing. *)
Theorem organize_accepts_well_typed (tutorials : list Tutorial) :
  exists r,
    getOrganizedTutorials tutorials = Normal r /\
    Raw.getOrganizedTutorials (map erase tutorials) = Normal (eraseResult r).
Proof.
  destruct (getOrganizedTutorials_steps tutorials) as [ss [Hr _]].
  eexists. split; [exact Hr|].
  unfold getOrganizedTutorials in Hr. unfold Raw.getOrganizedTutorials.
  rewrite (filter_map_comm erase (fun t => negb (Raw.hasSeries t))
             (fun t => negb (hasSeries t))) by reflexivity.
  rewrite (filter_map_comm erase Raw.hasSeries hasSeries) by reflexivity.
  rewrite (sortM_map erase Raw.byDateDesc byDateDesc)
    by (intros a b; unfold Raw.byDateDesc, byDateDesc; simpl;
        destruct (Data.dateUpdated (data a)), (Data.dateUpdated (data b));
        reflexivity).
  cbn [bind].
  change (@nil (string * list Raw.Tutorial)) with (eraseMap []).
  rewrite group_fold_erase, buildAll_erase.
  destruct (buildAll (fold_left groupStep (filter hasSeries tutorials) []))
    as [ss'|e]; cbn [bind] in *; [|discriminate].
  injection Hr as Hss _ _. subst ss'.
  rewrite !map_map. cbn [erase Raw.data Raw.Data.category Raw.Data.tags].
  rewrite <- (map_map (fun t => Data.category (data t)) Some).
  rewrite (JsSet_from_map Some Raw.same String.eqb) by reflexivity.
  rewrite sort_default_undef_Some.
  rewrite flat_map_concat_map, map_map.
  cbn [erase Raw.data Raw.Data.tags].
  rewrite <- flat_map_concat_map.
  rewrite !StringSet_from_first_seen. reflexivity.
Qed.

(** C5 as stated fails: a record without [slug], [category], [difficulty]
    and [dateCreated] is accepted.  It is grouped into its series, its
    missing category is listed among the categories as [undefined], and
    nothing is thrown. *)
Lemma organize_incomplete_record_returns :
  let input := [erase docker_basics; erase rust_index; incomplete_installation] in
  Raw.slug incomplete_installation = None /\
  Raw.Data.category (Raw.data incomplete_installation) = None /\
  Raw.Data.difficulty (Raw.data incomplete_installation) = None /\
  Raw.Data.dateCreated (Raw.data incomplete_installation) = None /\
  Raw.getOrganizedTutorials input =
    Normal (Raw.mkTutorialData
              [erase docker_basics]
              [Raw.Series.mk (seriesOf rust_index)
                             (Data.title (data rust_index))
                             (Data.description (data rust_index))
                             [erase rust_index; incomplete_installation]
                             (Some (Data.category (data rust_index)))
                             (Some beginner)]
              [Some (Data.category (data docker_basics));
               Some (Data.category (data rust_index));
               None]
              (sort_default
                 (Data.tags (data docker_basics) ++ Data.tags (data rust_index)))) /\
  ~ (exists e, Raw.getOrganizedTutorials input = Throw e).
Proof.
  cbv zeta. repeat (split; [reflexivity|]).
  intros [e H]. discriminate H.
Qed.

(** ** What the Organizer accepts at run time

    Nothing in [getOrganizedTutorials] looks at [slug], and a missing
    [category] or [difficulty] is carried along as [undefined].  The one
    throw it can reach is [getTime()] on a standalone record that has neither
    [dateUpdated] nor [dateCreated], while sorting two or more of them. *)

Lemma insertM_total {A : Type} (cmp : A -> A -> completion Z) (x : A)
  (l : list A) :
  (forall y, In y l -> exists z, cmp x y = Normal z) ->
  exists r, Array.insertM cmp x l = Normal r /\ Permutation r (x :: l).
Proof.
  induction l as [|y l IH]; intros H; simpl.
  - exists [x]. split; [reflexivity | apply Permutation_refl].
  - destruct (H y (or_introl eq_refl)) as [z Hz]. rewrite Hz. cbn [bind].
    destruct (0 <? z).
    + destruct IH as [r [Hr Hp]].
      { intros y' Hy'. apply H. right. exact Hy'. }
      rewrite Hr. cbn [bind]. exists (y :: r). split; [reflexivity|].
      eapply Permutation_trans; [apply perm_skip, Hp | apply perm_swap].
    + eexists. split; [reflexivity | apply Permutation_refl].
Qed.

Lemma sortM_total {A : Type} (cmp : A -> A -> completion Z) (l : list A) :
  (forall a b, In a l -> In b l -> exists z, cmp a b = Normal z) ->
  exists r, Array.sortM cmp l = Normal r /\ Permutation r l.
Proof.
  induction l as [|x l IH]; intros H; simpl.
  - exists []. split; [reflexivity | constructor].
  - destruct IH as [r [Hr Hp]].
    { intros a b Ha Hb. apply H; right; assumption. }
    rewrite Hr. cbn [bind].
    destruct (insertM_total cmp x r) as [r' [Hr' Hp']].
    { intros y Hy. apply H; [left; reflexivity | right].
      eapply Permutation_in; eassumption. }
    exists r'. split; [exact Hr'|].
    eapply Permutation_trans; [exact Hp' | apply perm_skip, Hp].
Qed.

Lemma set_Forall {V : Type} (P : string * V -> Prop) (m : StringMap.t V)
  (k : string) (v : V) :
  Forall P m -> (forall k', P (k', v)) -> Forall P (StringMap.set m k v).
Proof.
  intros Hm Hv. induction Hm as [|[k' v'] m Hx Hm IH]; simpl.
  - constructor; [apply Hv | constructor].
  - destruct (String.eqb k k'); constructor; auto.
Qed.

Lemma Raw_groupStep_nonempty (m : StringMap.t (list Raw.Tutorial))
  (t : Raw.Tutorial) :
  Forall (fun e => snd e <> []) m ->
  Forall (fun e => snd e <> []) (Raw.groupStep m t).
Proof.
  intros Hm. unfold Raw.groupStep.
  destruct (Raw.Data.series (Raw.data t)) as [k|]; [|exact Hm].
  unfold StringMap.has.
  destruct (StringMap.get m k) as [items|] eqn:Eg; simpl.
  - rewrite Eg. apply set_Forall; [exact Hm|].
    intros k'. simpl. destruct items; discriminate.
  - rewrite set_new by exact Eg.
    rewrite get_app_new by exact Eg.
    rewrite set_app_new by exact Eg.
    apply Forall_app. split; [exact Hm|].
    constructor; [simpl; discriminate | constructor].
Qed.

Lemma Raw_buildAll_total (entries : StringMap.t (list Raw.Tutorial)) :
  Forall (fun e => snd e <> []) entries ->
  exists ss, Raw.buildAll entries = Normal ss.
Proof.
  induction 1 as [|[k items] entries Hne _ [ss IH]]; cbn [Raw.buildAll].
  - eexists. reflexivity.
  - assert (Hb : exists s, Raw.buildSeries (k, items) = Normal s).
    { unfold Raw.buildSeries.
      destruct (or_else _ _) as [index|] eqn:E; [eexists; reflexivity|].
      exfalso. unfold or_else in E.
      destruct (Array.find Raw.isIndex (Array.sort Raw.bySeriesOrder items));
        [discriminate|].
      destruct (Array.sort Raw.bySeriesOrder items) eqn:Es; [|discriminate].
      apply sort_nil_inv in Es. exact (Hne Es). }
    destruct Hb as [s Hs]. rewrite Hs, IH. cbn [bind]. eexists. reflexivity.
Qed.

Lemma Raw_organize_accepts (tutorials : list Raw.Tutorial) :
  (forall t, In t tutorials -> Raw.hasSeries t = false ->
             Raw.Data.dateUpdated (Raw.data t) <> None \/
             Raw.Data.dateCreated (Raw.data t) <> None) ->
  exists r, Raw.getOrganizedTutorials tutorials = Normal r.
Proof.
  intros Hdated. unfold Raw.getOrganizedTutorials.
  destruct (sortM_total Raw.byDateDesc
              (filter (fun t => negb (Raw.hasSeries t)) tutorials))
    as [st [Hst _]].
  { assert (Hd : forall a,
              In a (filter (fun t => negb (Raw.hasSeries t)) tutorials) ->
              exists d, or_else (Raw.Data.dateUpdated (Raw.data a))
                                (Raw.Data.dateCreated (Raw.data a)) = Some d).
    { intros a Ha. apply filter_In in Ha. destruct Ha as [Ha Hs].
      apply negb_true_iff in Hs. specialize (Hdated a Ha Hs).
      destruct (Raw.Data.dateUpdated (Raw.data a)) as [d|]; simpl;
        [eexists; reflexivity|].
      destruct (Raw.Data.dateCreated (Raw.data a)) as [d|];
        [eexists; reflexivity|].
      destruct Hdated as [H | H]; contradiction. }
    intros a b Ha Hb. unfold Raw.byDateDesc.
    destruct (Hd a Ha) as [da Eda]. destruct (Hd b Hb) as [db Edb].
    rewrite Eda, Edb. eexists. reflexivity. }
  rewrite Hst. cbn [bind].
  destruct (Raw_buildAll_total
              (fold_left Raw.groupStep (filter Raw.hasSeries tutorials) []))
    as [ss Hss].
  { generalize (filter Raw.hasSeries tutorials) as l.
    assert (H0 : Forall (fun e : string * list Raw.Tutorial => snd e <> []) [])
      by constructor.
    revert H0. generalize (@nil (string * list Raw.Tutorial)) as m.
    intros m Hm l. revert m Hm.
    induction l as [|t l IH]; intros m Hm; simpl; [exact Hm|].
    apply IH, Raw_groupStep_nonempty, Hm. }
  rewrite Hss. cbn [bind]. eexists. reflexivity.
Qed.

(** * The published list *)

Lemma getPublishedTutorials_dev (collection : list Tutorial) :
  getPublishedTutorials false collection = collection.
Proof.
  unfold getPublishedTutorials.
  induction collection as [|t l IH]; simpl; [reflexivity|].
  rewrite IH. reflexivity.
Qed.

Lemma getPublishedTutorials_prod (collection : list Tutorial) (t : Tutorial) :
  In t (getPublishedTutorials true collection) <->
  In t collection /\ Data.status (data t) <> draft.
Proof.
  unfold getPublishedTutorials. rewrite filter_In.
  destruct (Data.status (data t)); simpl; split; intros [H1 H2];
    split; congruence.
Qed.

(** * The example scenarios of the specification *)

Example scenario_standalone :
  exists r, getOrganizedTutorials [docker_basics] = Normal r /\
            standalone r = [docker_basics] /\ series r = [].
Proof. eexists. split; [reflexivity|]. split; reflexivity. Qed.

Example scenario_series :
  exists r s,
    getOrganizedTutorials [rust_index; rust_installation; rust_ownership] = Normal r /\
    series r = [s] /\
    Series.slug s = seriesOf rust_index /\
    Series.tutorials s = [rust_index; rust_installation; rust_ownership] /\
    Series.difficulty s = intermediate.
Proof. do 2 eexists. repeat split; reflexivity. Qed.

Example scenario_navigation :
  getSeriesNavigation [rust_index; rust_installation; rust_ownership]
                      rust_installation =
  Normal (Some (Nav.mk [rust_index; rust_installation; rust_ownership] 1
                       (Obj rust_index) (Obj rust_ownership))).
Proof. reflexivity. Qed.

Example scenario_missing_order :
  getSeriesTutorials [rust_installation; rust_ownership; rust_preface]
                     (seriesOf rust_preface) =
  [rust_preface; rust_installation; rust_ownership].
Proof. reflexivity. Qed.

Example scenario_shared_category :
  exists r, getOrganizedTutorials [docker_basics; compose_intro] = Normal r /\
            categories r = [Data.category (data docker_basics)].
Proof. eexists. split; reflexivity. Qed.

(** * Beyond the claims: the helpers, the Organizer and the Navigator together *)

Lemma Forall2_In_l {A B : Type} (R : A -> B -> Prop) (l : list A) (l' : list B)
  (a : A) :
  Forall2 R l l' -> In a l -> exists b, In b l' /\ R a b.
Proof.
  induction 1 as [|x y l l' Hxy _ IH]; simpl; [tauto|].
  intros [E | Hin].
  - subst x. exists y. split; [left; reflexivity | exact Hxy].
  - destruct (IH Hin) as [b [Hb Hab]]. exists b. split; [right; exact Hb | exact Hab].
Qed.

Lemma Forall2_In_r {A B : Type} (R : A -> B -> Prop) (l : list A) (l' : list B)
  (b : B) :
  Forall2 R l l' -> In b l' -> exists a, In a l /\ R a b.
Proof.
  induction 1 as [|x y l l' Hxy _ IH]; simpl; [tauto|].
  intros [E | Hin].
  - subst y. exists x. split; [left; reflexivity | exact Hxy].
  - destruct (IH Hin) as [a [Ha Hab]]. exists a. split; [right; exact Ha | exact Hab].
Qed.

(** The result of the Organizer in terms of the other helpers. *)
Lemma organizer_shape (ts : list Tutorial) :
  exists ss,
    getOrganizedTutorials ts =
    Normal (mkTutorialData
              (Array.sort byDateDesc (filter (fun t => negb (hasSeries t)) ts))
              ss (getCategories ts) (getTags ts)) /\
    Forall2 (fun k s => Series.slug s = k /\
                        Series.tutorials s = getSeriesTutorials ts k)
            (seriesKeys ts) ss.
Proof.
  destruct (getOrganizedTutorials_steps ts) as [ss [Hr HF]].
  exists ss. split.
  - rewrite Hr. unfold getCategories, getTags.
    rewrite !StringSet_from_first_seen. reflexivity.
  - clear Hr. induction HF as [|k s ks ss' Hb _ IH]; constructor; [|exact IH].
    apply buildSeries_fields in Hb. destruct Hb as [H1 [H2 _]].
    split; [exact H1 | exact H2].
Qed.

Lemma getSeriesTutorials_In (ts : list Tutorial) (k : string) (t : Tutorial) :
  In t (getSeriesTutorials ts k) <->
  In t ts /\ Data.series (data t) = Some k.
Proof.
  unfold getSeriesTutorials. rewrite sort_In, filter_In. unfold memberOf.
  destruct (Data.series (data t)) as [s'|].
  - rewrite String.eqb_eq. split; intros [H1 H2]; split; congruence.
  - split; intros [_ H]; discriminate.
Qed.

Lemma hasSeries_false_iff (t : Tutorial) :
  hasSeries t = false <->
  Data.series (data t) = None \/ Data.series (data t) = Some EmptyString.
Proof.
  unfold hasSeries, truthy. destruct (Data.series (data t)) as [k|].
  - rewrite negb_false_iff, String.eqb_eq. split.
    + intros ->. right. reflexivity.
    + intros [H | H]; congruence.
  - split; auto.
Qed.

(** Where the Organizer puts a tutorial. *)
Lemma organizer_members (ts : list Tutorial) (r : TutorialData) :
  getOrganizedTutorials ts = Normal r ->
  (forall t, In t (standalone r) <-> In t ts /\ hasSeries t = false) /\
  (forall s, In s (series r) ->
             In (Series.slug s) (seriesKeys ts) /\
             Series.tutorials s = getSeriesTutorials ts (Series.slug s)) /\
  (forall k, In k (seriesKeys ts) ->
             exists s, In s (series r) /\ Series.slug s = k).
Proof.
  intros Hr. destruct (organizer_shape ts) as [ss [Hr' HF]].
  rewrite Hr in Hr'. injection Hr' as ->. simpl. split; [|split].
  - intros t. rewrite sort_In, filter_In, negb_true_iff. tauto.
  - intros s Hs. destruct (Forall2_In_r _ _ _ s HF Hs) as [k [Hk [H1 H2]]].
    subst k. split; assumption.
  - intros k Hk. destruct (Forall2_In_l _ _ _ k HF Hk) as [s [Hs [H1 _]]].
    exists s. split; assumption.
Qed.

(** X1.  The stand-alone helpers [getCategories] and [getTags] return what
    the Organizer returns as [categories] and [tags] on the same list. *)
Theorem helpers_agree_with_organizer (tutorials : list Tutorial) :
  exists r,
    getOrganizedTutorials tutorials = Normal r /\
    categories r = getCategories tutorials /\
    tags r = getTags tutorials.
Proof.
  destruct (organizer_shape tutorials) as [ss [Hr _]].
  eexists. split; [exact Hr|]. split; reflexivity.
Qed.

(** Two strictly ascending lists with the same elements are equal. *)
Lemma strict_sorted_unique (l1 l2 : list string) :
  StronglySorted (fun a b => String.compare a b = Lt) l1 ->
  StronglySorted (fun a b => String.compare a b = Lt) l2 ->
  (forall x, In x l1 <-> In x l2) ->
  l1 = l2.
Proof.
  assert (Hirr : forall a, String.compare a a <> Lt).
  { intros a H. assert (E : String_as_OT.cmp a a = Eq)
      by (apply String_as_OT.cmp_eq; reflexivity).
    unfold String_as_OT.cmp in E. congruence. }
  assert (Hasym : forall a b, String.compare a b = Lt ->
                              String.compare b a = Lt -> False).
  { intros a b H1 H2. rewrite String.compare_antisym, H1 in H2. discriminate. }
  intros H1. revert l2. induction H1 as [|a l1 Hs1 IH Ha]; intros l2 H2 Hin.
  - destruct l2 as [|b l2]; [reflexivity|].
    exfalso. apply (Hin b). left. reflexivity.
  - destruct H2 as [|b l2 Hs2 Hb].
    + exfalso. apply (Hin a). left. reflexivity.
    + rewrite Forall_forall in Ha, Hb.
      assert (E : a = b).
      { destruct (proj1 (Hin a) (or_introl eq_refl)) as [E | Hab]; [auto|].
        destruct (proj2 (Hin b) (or_introl eq_refl)) as [E | Hba]; [auto|].
        exfalso. exact (Hasym a b (Ha b Hba) (Hb a Hab)). }
      subst b. f_equal. apply IH; [exact Hs2|].
      intros x. split; intros Hx.
      * destruct (proj1 (Hin x) (or_intror Hx)) as [E | H]; [|exact H].
        subst x. exfalso. exact (Hirr a (Ha a Hx)).
      * destruct (proj2 (Hin x) (or_intror Hx)) as [E | H]; [|exact H].
        subst x. exfalso. exact (Hirr a (Hb a Hx)).
Qed.

Lemma getCategories_spec (ts : list Tutorial) :
  StronglySorted (fun a b => String.compare a b = Lt) (getCategories ts) /\
  forall c, In c (getCategories ts) <->
            exists t, In t ts /\ Data.category (data t) = c.
Proof.
  unfold getCategories. rewrite StringSet_from_first_seen.
  destruct (sorted_set (map (fun t => Data.category (data t)) ts)) as [H1 H2].
  split; [exact H1|]. intros c. rewrite H2, in_map_iff.
  split; intros [t H]; exists t; tauto.
Qed.

Lemma getTags_spec (ts : list Tutorial) :
  StronglySorted (fun a b => String.compare a b = Lt) (getTags ts) /\
  forall g, In g (getTags ts) <->
            exists t, In t ts /\ In g (Data.tags (data t)).
Proof.
  unfold getTags. rewrite StringSet_from_first_seen.
  destruct (sorted_set (flat_map (fun t => Data.tags (data t)) ts)) as [H1 H2].
  split; [exact H1|]. intros g. rewrite H2, in_flat_map. tauto.
Qed.

(** X2.  [getCategories] and [getTags] depend on the tutorials of the list
    only, not on their order or on repetitions: two lists with the same
    tutorials give the same categories and the same tags. *)
Theorem categories_tags_order_independent (ts1 ts2 : list Tutorial) :
  (forall t, In t ts1 <-> In t ts2) ->
  getCategories ts1 = getCategories ts2 /\ getTags ts1 = getTags ts2.
Proof.
  intros Hsame. split.
  - destruct (getCategories_spec ts1) as [S1 M1].
    destruct (getCategories_spec ts2) as [S2 M2].
    apply strict_sorted_unique; [exact S1 | exact S2|].
    intros c. rewrite M1, M2.
    split; intros [t [Ht E]]; exists t; (split; [apply Hsame, Ht | exact E]).
  - destruct (getTags_spec ts1) as [S1 M1].
    destruct (getTags_spec ts2) as [S2 M2].
    apply strict_sorted_unique; [exact S1 | exact S2|].
    intros g. rewrite M1, M2.
    split; intros [t [Ht E]]; exists t; (split; [apply Hsame, Ht | exact E]).
Qed.

Lemma categories_tags_order_independent_witness :
  getCategories [docker_basics; rust_index; docker_basics] =
    getCategories [rust_index; docker_basics] /\
  getTags [docker_basics; rust_index; docker_basics] =
    getTags [rust_index; docker_basics].
Proof.
  apply (categories_tags_order_independent
           [docker_basics; rust_index; docker_basics]
           [rust_index; docker_basics]).
  intros t. simpl. tauto.
Defined.

Lemma getSeriesTutorials_nonempty_key (ts : list Tutorial) (k : string) :
  k <> EmptyString -> getSeriesTutorials ts k <> [] -> In k (seriesKeys ts).
Proof.
  intros Hk Hne. destruct (getSeriesTutorials ts k) as [|t l] eqn:E;
    [contradiction|].
  assert (Ht : In t (getSeriesTutorials ts k)) by (rewrite E; left; reflexivity).
  apply getSeriesTutorials_In in Ht. destruct Ht as [Ht Hs].
  apply seriesKeys_spec. exists t. tauto.
Qed.

(** X3.  The [tutorials] of every [Series] of the Organizer are what
    [getSeriesTutorials] returns for its slug, and every non-empty slug for
    which [getSeriesTutorials] returns a tutorial has its [Series].  The
    tutorials that [getSeriesTutorials] returns for the empty slug are not
    in any [Series]: the Organizer lists them as standalone. *)
Theorem organizer_series_are_getSeriesTutorials (tutorials : list Tutorial) :
  exists r,
    getOrganizedTutorials tutorials = Normal r /\
    (forall s, In s (series r) ->
               Series.tutorials s =
               getSeriesTutorials tutorials (Series.slug s)) /\
    (forall k, k <> EmptyString -> getSeriesTutorials tutorials k <> [] ->
               exists s, In s (series r) /\ Series.slug s = k) /\
    (forall t, In t (getSeriesTutorials tutorials EmptyString) ->
               In t (standalone r) /\
               forall s, In s (series r) -> ~ In t (Series.tutorials s)).
Proof.
  destruct (organizer_shape tutorials) as [ss [Hr _]].
  eexists. split; [exact Hr|].
  destruct (organizer_members _ _ Hr) as [Hst [Hse Hk]].
  split; [|split].
  - intros s Hs. apply Hse, Hs.
  - intros k Hk0 Hne. apply Hk, getSeriesTutorials_nonempty_key; assumption.
  - intros t Ht. apply getSeriesTutorials_In in Ht. destruct Ht as [Ht Hs].
    split.
    + apply Hst. split; [exact Ht|]. apply hasSeries_false_iff. auto.
    + intros s Hin Hmem. destruct (Hse s Hin) as [Hkey Htut].
      rewrite Htut in Hmem. apply getSeriesTutorials_In in Hmem.
      destruct Hmem as [_ Hs']. rewrite Hs in Hs'. injection Hs' as Hs'.
      apply (seriesKeys_nonempty tutorials). rewrite Hs'. exact Hkey.
Qed.

(** X4.  Every [Series] of the Organizer has at least one tutorial and a
    non-empty slug, and its tutorials are tutorials of the input whose
    [series] is this slug.  A tutorial of the input with a non-empty
    [series] is in the [Series] of this value, also when it is its only
    member, and not in [standalone]. *)
Theorem organizer_series_well_formed (tutorials : list Tutorial) :
  exists r,
    getOrganizedTutorials tutorials = Normal r /\
    (forall s, In s (series r) ->
       Series.tutorials s <> [] /\
       Series.slug s <> EmptyString /\
       forall t, In t (Series.tutorials s) ->
                 In t tutorials /\ Data.series (data t) = Some (Series.slug s)) /\
    (forall t k, In t tutorials -> Data.series (data t) = Some k ->
                 k <> EmptyString ->
       ~ In t (standalone r) /\
       exists s, In s (series r) /\ Series.slug s = k /\
                 In t (Series.tutorials s)).
Proof.
  destruct (organizer_shape tutorials) as [ss [Hr _]].
  eexists. split; [exact Hr|].
  destruct (organizer_members _ _ Hr) as [Hst [Hse Hk]].
  split.
  - intros s Hs. destruct (Hse s Hs) as [Hkey Htut].
    assert (Hne : Series.slug s <> EmptyString).
    { intros E. apply (seriesKeys_nonempty tutorials). rewrite <- E. exact Hkey. }
    split; [|split; [exact Hne|]].
    + rewrite Htut. unfold getSeriesTutorials. intros E.
      apply sort_nil_inv in E. exact (members_nonempty _ _ Hkey E).
    + intros t Ht. rewrite Htut in Ht. apply getSeriesTutorials_In, Ht.
  - intros t k Ht Hs Hk0. split.
    + intros Hin. apply Hst in Hin. destruct Hin as [_ Hf].
      apply hasSeries_false_iff in Hf. destruct Hf as [Hf | Hf]; congruence.
    + destruct (Hk k) as [s [Hin Eslug]].
      { apply seriesKeys_spec. exists t. tauto. }
      exists s. split; [exact Hin|]. split; [exact Eslug|].
      destruct (Hse s Hin) as [_ Htut]. rewrite Htut, Eslug.
      apply getSeriesTutorials_In. tauto.
Qed.

(** X5.  In a production build the Organizer, run on the published list,
    lists exactly the tutorials of the collection that are not drafts: a
    tutorial is in [standalone] or in the [tutorials] of a [Series] if and
    only if it is in the collection and its [status] is not [draft]. *)
Theorem production_lists_no_draft (collection : list Tutorial) :
  exists r,
    getOrganizedTutorials (getPublishedTutorials true collection) = Normal r /\
    forall t,
      (In t (standalone r) \/
       exists s, In s (series r) /\ In t (Series.tutorials s)) <->
      (In t collection /\ Data.status (data t) <> draft).
Proof.
  set (published := getPublishedTutorials true collection).
  destruct (organizer_shape published) as [ss [Hr _]].
  eexists. split; [exact Hr|].
  destruct (organizer_members _ _ Hr) as [Hst [Hse Hk]].
  intros t. rewrite <- getPublishedTutorials_prod. fold published. split.
  - intros [Hin | [s [Hs Hin]]].
    + apply Hst in Hin. tauto.
    + destruct (Hse s Hs) as [_ Htut]. rewrite Htut in Hin.
      apply getSeriesTutorials_In in Hin. tauto.
  - intros Ht. destruct (hasSeries t) eqn:Eh.
    + right. apply hasSeries_Some in Eh. destruct Eh as [Es Ek].
      destruct (Hk (seriesOf t)) as [s [Hs Eslug]].
      { apply seriesKeys_spec. exists t. tauto. }
      exists s. split; [exact Hs|].
      destruct (Hse s Hs) as [_ Htut]. rewrite Htut, Eslug.
      apply getSeriesTutorials_In. tauto.
    + left. apply Hst. tauto.
Qed.

(** ** The Navigator, in general *)

Lemma findIndex_from_cases {A : Type} (p : A -> bool) (l : list A) (start : Z) :
  (Array.findIndex_from p l start = -1 /\ Forall (fun y => p y = false) l) \/
  (exists i x,
      Array.findIndex_from p l start = start + Z.of_nat i /\
      nth_error l i = Some x /\ p x = true /\
      forall j y, (j < i)%nat -> nth_error l j = Some y -> p y = false).
Proof.
  revert start. induction l as [|y l IH]; intros start; simpl.
  - left. split; [reflexivity | constructor].
  - destruct (p y) eqn:Ey.
    + right. exists 0%nat, y. repeat split; [lia | exact Ey |].
      intros j z Hj. lia.
    + destruct (IH (start + 1)) as [[H1 H2] | [i [x [H1 [H2 [H3 H4]]]]]].
      * left. split; [exact H1 | constructor; assumption].
      * right. exists (S i), x. repeat split; [lia | exact H2 | exact H3 |].
        intros j z Hj Hz. destruct j as [|j]; simpl in Hz.
        -- injection Hz as <-. exact Ey.
        -- apply (H4 j z); [lia | exact Hz].
Qed.

Lemma element_of_nat (l : list Tutorial) (i : nat) :
  element l (Z.of_nat i) =
  match nth_error l i with
  | Some t => Obj t
  | None => Undefined
  end.
Proof. unfold element. rewrite get_of_nat. reflexivity. Qed.

(** The result when the tutorial is found at position [i]. *)
Lemma getSeriesNavigation_found (ts : list Tutorial) (t : Tutorial) (k : string)
  (i : nat) (m : Tutorial) :
  Data.series (data t) = Some k -> k <> EmptyString ->
  nth_error (getSeriesTutorials ts k) i = Some m -> slug m = slug t ->
  (forall j m', (j < i)%nat -> nth_error (getSeriesTutorials ts k) j = Some m' ->
                slug m' <> slug t) ->
  getSeriesNavigation ts t =
  Normal (Some (Nav.mk
    (getSeriesTutorials ts k)
    (Z.of_nat i)
    (match i with
     | O => Null
     | S j => match nth_error (getSeriesTutorials ts k) j with
              | Some p => Obj p
              | None => Undefined
              end
     end)
    (match nth_error (getSeriesTutorials ts k) (S i) with
     | Some n => Obj n
     | None => Null
     end))).
Proof.
  intros Hs Hk Hi Hm Hfirst.
  rewrite (getSeriesNavigation_Some ts t k Hs Hk). cbv zeta.
  set (sorted := getSeriesTutorials ts k) in *.
  assert (Hidx : Array.findIndex (fun m0 => String.eqb (slug m0) (slug t))
                                 sorted = Z.of_nat i).
  { unfold Array.findIndex.
    rewrite (findIndex_from_first _ sorted i m 0 Hi); [lia | |].
    - apply String.eqb_eq, Hm.
    - intros j y Hj Hy. apply String.eqb_neq. exact (Hfirst j y Hj Hy). }
  rewrite Hidx.
  assert (Hlen : (i < List.length sorted)%nat).
  { apply nth_error_Some. congruence. }
  do 3 f_equal.
  - destruct i as [|j].
    + reflexivity.
    + destruct (Z.ltb_spec 0 (Z.of_nat (S j))); [|lia].
      replace (Z.of_nat (S j) - 1) with (Z.of_nat j) by lia.
      apply element_of_nat.
  - unfold Array.length.
    destruct (Z.ltb_spec (Z.of_nat i) (Z.of_nat (List.length sorted) - 1)).
    + replace (Z.of_nat i + 1) with (Z.of_nat (S i)) by lia.
      rewrite element_of_nat.
      destruct (nth_error sorted (S i)) eqn:En; [reflexivity|].
      apply nth_error_None in En. lia.
    + destruct (nth_error sorted (S i)) eqn:En; [|reflexivity].
      assert (S i < List.length sorted)%nat
        by (apply nth_error_Some; congruence).
      lia.
Qed.

(** The result when no member has the slug of the tutorial. *)
Lemma getSeriesNavigation_missing (ts : list Tutorial) (t : Tutorial) (k : string) :
  Data.series (data t) = Some k -> k <> EmptyString ->
  Forall (fun m => slug m <> slug t) (getSeriesTutorials ts k) ->
  getSeriesNavigation ts t =
  Normal (Some (Nav.mk
    (getSeriesTutorials ts k)
    (-1)
    Null
    (match getSeriesTutorials ts k with
     | first :: _ => Obj first
     | [] => Null
     end))).
Proof.
  intros Hs Hk Hall.
  rewrite (getSeriesNavigation_Some ts t k Hs Hk). cbv zeta.
  set (sorted := getSeriesTutorials ts k) in *.
  assert (Hidx : Array.findIndex (fun m => String.eqb (slug m) (slug t))
                                 sorted = -1).
  { apply findIndex_from_none. eapply Forall_impl; [|exact Hall].
    intros m Hm. apply String.eqb_neq, Hm. }
  rewrite Hidx. do 3 f_equal.
  unfold Array.length, element. destruct sorted as [|first rest]; [reflexivity|].
  simpl List.length.
  destruct (Z.ltb_spec (-1) (Z.of_nat (S (List.length rest)) - 1)); [|lia].
  reflexivity.
Qed.

(** Every non-null result has one of these two forms. *)
Lemma getSeriesNavigation_cases (ts : list Tutorial) (t : Tutorial) (nav : Nav.t) :
  getSeriesNavigation ts t = Normal (Some nav) ->
  exists k,
    Data.series (data t) = Some k /\ k <> EmptyString /\
    ((Forall (fun m => slug m <> slug t) (getSeriesTutorials ts k) /\
      nav = Nav.mk (getSeriesTutorials ts k) (-1) Null
                   (match getSeriesTutorials ts k with
                    | first :: _ => Obj first
                    | [] => Null
                    end)) \/
     (exists i m,
         nth_error (getSeriesTutorials ts k) i = Some m /\ slug m = slug t /\
         (forall j m', (j < i)%nat ->
                       nth_error (getSeriesTutorials ts k) j = Some m' ->
                       slug m' <> slug t) /\
         nav = Nav.mk (getSeriesTutorials ts k) (Z.of_nat i)
                      (match i with
                       | O => Null
                       | S j => match nth_error (getSeriesTutorials ts k) j with
                                | Some p => Obj p
                                | None => Undefined
                                end
                       end)
                      (match nth_error (getSeriesTutorials ts k) (S i) with
                       | Some n => Obj n
                       | None => Null
                       end))).
Proof.
  intros Hnav.
  destruct (hasSeries t) eqn:Eh.
  - destruct (hasSeries_Some t Eh) as [Hs Hk].
    exists (seriesOf t). split; [exact Hs|]. split; [exact Hk|].
    destruct (findIndex_from_cases
                (fun m => String.eqb (slug m) (slug t))
                (getSeriesTutorials ts (seriesOf t)) 0)
      as [[_ Hall] | [i [m [_ [Hi [Hm Hfirst]]]]]].
    + left.
      assert (Hall' : Forall (fun m => slug m <> slug t)
                             (getSeriesTutorials ts (seriesOf t))).
      { eapply Forall_impl; [|exact Hall]. intros m. apply String.eqb_neq. }
      split; [exact Hall'|].
      rewrite (getSeriesNavigation_missing ts t _ Hs Hk Hall') in Hnav.
      injection Hnav as <-. reflexivity.
    + right. exists i, m. apply String.eqb_eq in Hm.
      assert (Hfirst' : forall j m', (j < i)%nat ->
                nth_error (getSeriesTutorials ts (seriesOf t)) j = Some m' ->
                slug m' <> slug t).
      { intros j m' Hj Hm'. apply String.eqb_neq. exact (Hfirst j m' Hj Hm'). }
      repeat split; try assumption.
      rewrite (getSeriesNavigation_found ts t _ i m Hs Hk Hi Hm Hfirst') in Hnav.
      injection Hnav as <-. reflexivity.
  - exfalso. apply hasSeries_false_iff in Eh.
    apply (getSeriesNavigation_null ts t) in Eh. congruence.
Qed.

Lemma unique_slug_eq (ts : list Tutorial) (a b : Tutorial) :
  NoDup (map slug ts) -> In a ts -> In b ts -> slug a = slug b -> a = b.
Proof.
  induction ts as [|x ts IH]; simpl; [tauto|].
  intros Hnd Ha Hb E. apply NoDup_cons_iff in Hnd. destruct Hnd as [Hx Hnd].
  destruct Ha as [Ha | Ha], Hb as [Hb | Hb].
  - congruence.
  - subst x. exfalso. apply Hx. rewrite E. apply in_map, Hb.
  - subst x. exfalso. apply Hx. rewrite <- E. apply in_map, Ha.
  - apply IH; assumption.
Qed.

(** X6.  Every object the Navigator returns is well formed: its [series]
    holds tutorials of the list with the [series] of the given tutorial;
    [current] is [-1] or an index of [series], [-1] exactly when no member
    has the slug of the tutorial, and otherwise the member at [current] has
    this slug; [prev] and [next] are never [undefined], and when they are
    not [null] they are members of [series]. *)
Theorem navigation_result_well_formed (tutorials : list Tutorial)
  (tutorial : Tutorial) (nav : Nav.t) :
  getSeriesNavigation tutorials tutorial = Normal (Some nav) ->
  (forall m, In m (Nav.series nav) ->
             In m tutorials /\
             Data.series (data m) = Data.series (data tutorial)) /\
  -1 <= Nav.current nav < Array.length (Nav.series nav) /\
  (Nav.current nav = -1 <->
   forall m, In m (Nav.series nav) -> slug m <> slug tutorial) /\
  (0 <= Nav.current nav ->
   exists m, nth_error (Nav.series nav) (Z.to_nat (Nav.current nav)) = Some m /\
             slug m = slug tutorial) /\
  Nav.prev nav <> Undefined /\
  Nav.next nav <> Undefined /\
  (forall p, Nav.prev nav = Obj p -> In p (Nav.series nav)) /\
  (forall n, Nav.next nav = Obj n -> In n (Nav.series nav)).
Proof.
  intros Hnav.
  destruct (getSeriesNavigation_cases _ _ _ Hnav)
    as [k [Hs [Hk [[Hall E] | [i [m [Hi [Hm [Hfirst E]]]]]]]]];
    subst nav; cbn [Nav.series Nav.current Nav.prev Nav.next];
    set (sorted := getSeriesTutorials tutorials k) in *.
  - split; [|split; [|split; [|split; [|split; [|split; [|split]]]]]].
    + intros m Hin. apply getSeriesTutorials_In in Hin. rewrite Hs. exact Hin.
    + unfold Array.length. lia.
    + split; [|reflexivity]. intros _. rewrite Forall_forall in Hall. exact Hall.
    + lia.
    + discriminate.
    + destruct sorted; discriminate.
    + discriminate.
    + intros n Hn. destruct sorted as [|first rest]; [discriminate|].
      injection Hn as <-. left. reflexivity.
  - assert (Hlen : (i < List.length sorted)%nat)
      by (apply nth_error_Some; congruence).
    split; [|split; [|split; [|split; [|split; [|split; [|split]]]]]].
    + intros m' Hin. apply getSeriesTutorials_In in Hin. rewrite Hs. exact Hin.
    + unfold Array.length. lia.
    + split; [lia|]. intros Hno. exfalso.
      apply (Hno m); [eapply nth_error_In; exact Hi | exact Hm].
    + intros _. exists m. rewrite Nat2Z.id. split; assumption.
    + destruct i as [|j]; [discriminate|].
      destruct (nth_error sorted j) eqn:Ej; [discriminate|].
      apply nth_error_None in Ej. lia.
    + destruct (nth_error sorted (S i)); discriminate.
    + intros p Hp. destruct i as [|j]; [discriminate|].
      destruct (nth_error sorted j) eqn:Ej; [|discriminate].
      injection Hp as <-. eapply nth_error_In; exact Ej.
    + intros n Hn. destruct (nth_error sorted (S i)) eqn:En; [|discriminate].
      injection Hn as <-. eapply nth_error_In; exact En.
Qed.

Lemma navigation_result_well_formed_witness :
  -1 <= 1 < Array.length [rust_index; rust_installation; rust_ownership] /\
  Obj rust_index <> (Undefined : nullable Tutorial).
Proof.
  destruct (navigation_result_well_formed example_collection rust_installation
              (Nav.mk [rust_index; rust_installation; rust_ownership] 1
                      (Obj rust_index) (Obj rust_ownership)) eq_refl)
    as [_ [H [_ [_ [H' _]]]]].
  split; [exact H | exact H'].
Defined.

(** X7.  For a tutorial of the list that has a non-empty [series] the
    Navigator finds a position: [current] is not [-1] and the member at
    [current] has the slug of the tutorial; when the slugs of the list are
    unique this member is the tutorial itself. *)
Theorem navigation_finds_listed_tutorial (tutorials : list Tutorial)
  (tutorial : Tutorial) :
  In tutorial tutorials ->
  truthy (Data.series (data tutorial)) = true ->
  exists nav m,
    getSeriesNavigation tutorials tutorial = Normal (Some nav) /\
    0 <= Nav.current nav /\
    nth_error (Nav.series nav) (Z.to_nat (Nav.current nav)) = Some m /\
    slug m = slug tutorial /\
    (NoDup (map slug tutorials) -> m = tutorial).
Proof.
  intros Hin Ht. destruct (hasSeries_Some tutorial Ht) as [Hs Hk].
  set (k := seriesOf tutorial) in *.
  assert (Hmem : In tutorial (getSeriesTutorials tutorials k))
    by (apply getSeriesTutorials_In; tauto).
  destruct (findIndex_from_cases
              (fun m => String.eqb (slug m) (slug tutorial))
              (getSeriesTutorials tutorials k) 0)
    as [[_ Hall] | [i [m [_ [Hi [Hm Hfirst]]]]]].
  - exfalso. rewrite Forall_forall in Hall. specialize (Hall _ Hmem).
    rewrite String.eqb_refl in Hall. discriminate.
  - apply String.eqb_eq in Hm.
    eexists. exists m. split.
    + apply (getSeriesNavigation_found tutorials tutorial k i m Hs Hk Hi Hm).
      intros j m' Hj Hm'. apply String.eqb_neq. exact (Hfirst j m' Hj Hm').
    + cbn [Nav.series Nav.current]. rewrite Nat2Z.id.
      split; [lia|]. split; [exact Hi|]. split; [exact Hm|].
      intros Hnd. apply (unique_slug_eq tutorials); try assumption.
      apply nth_error_In in Hi. apply getSeriesTutorials_In in Hi. tauto.
Qed.

Lemma navigation_finds_listed_tutorial_witness :
  exists nav m,
    getSeriesNavigation example_collection rust_ownership = Normal (Some nav) /\
    0 <= Nav.current nav /\
    nth_error (Nav.series nav) (Z.to_nat (Nav.current nav)) = Some m /\
    slug m = slug rust_ownership.
Proof.
  destruct (navigation_finds_listed_tutorial example_collection rust_ownership)
    as [nav [m [H1 [H2 [H3 [H4 _]]]]]].
  - left. reflexivity.
  - reflexivity.
  - exists nav, m. repeat split; assumption.
Defined.

(** X8.  With unique slugs, following [next] and then [prev] (or [prev] and
    then [next]) leads back: if the Navigator gives [next = n] for a
    tutorial of the list, then for [n] it gives the same [series], the
    position after it and [prev] this tutorial; likewise with [prev] and
    [next] exchanged. *)
Theorem navigation_links_round_trip (tutorials : list Tutorial)
  (tutorial : Tutorial) (nav : Nav.t) :
  NoDup (map slug tutorials) ->
  In tutorial tutorials ->
  getSeriesNavigation tutorials tutorial = Normal (Some nav) ->
  (forall n, Nav.next nav = Obj n ->
     exists nav',
       getSeriesNavigation tutorials n = Normal (Some nav') /\
       Nav.series nav' = Nav.series nav /\
       Nav.current nav' = Nav.current nav + 1 /\
       Nav.prev nav' = Obj tutorial) /\
  (forall p, Nav.prev nav = Obj p ->
     exists nav',
       getSeriesNavigation tutorials p = Normal (Some nav') /\
       Nav.series nav' = Nav.series nav /\
       Nav.current nav' = Nav.current nav - 1 /\
       Nav.next nav' = Obj tutorial).
Proof.
  intros Hnd Hin Hnav.
  destruct (getSeriesNavigation_cases _ _ _ Hnav)
    as [k [Hs [Hk [[Hall E] | [i [m [Hi [Hm [Hfirst E]]]]]]]]].
  - exfalso. rewrite Forall_forall in Hall.
    apply (Hall tutorial); [|reflexivity].
    apply getSeriesTutorials_In. tauto.
  - subst nav. cbn [Nav.series Nav.current Nav.prev Nav.next].
    set (sorted := getSeriesTutorials tutorials k) in *.
    assert (Hsorted : sortedMembers tutorials k sorted)
      by (apply sortedMembers_iff; reflexivity).
    assert (Emt : m = tutorial).
    { apply (unique_slug_eq tutorials); try assumption.
      apply nth_error_In in Hi. apply getSeriesTutorials_In in Hi. tauto. }
    subst m.
    assert (Hmember : forall j x, nth_error sorted j = Some x ->
              Data.series (data x) = Some k).
    { intros j x Hx. apply nth_error_In in Hx.
      apply getSeriesTutorials_In in Hx. tauto. }
    split.
    + intros n Hn. destruct (nth_error sorted (S i)) as [n'|] eqn:En;
        [|discriminate].
      injection Hn as ->.
      eexists. split.
      * apply (getSeriesNavigation_found tutorials n k (S i) n
                 (Hmember _ _ En) Hk En eq_refl).
        apply (unique_slug_first_match tutorials k sorted n n (S i)
                 Hnd Hsorted En eq_refl).
      * cbn [Nav.series Nav.current Nav.prev]. fold sorted. rewrite Hi.
        split; [reflexivity|]. split; [lia | reflexivity].
    + intros p Hp. destruct i as [|j]; [discriminate|].
      destruct (nth_error sorted j) as [p'|] eqn:Ej; [|discriminate].
      injection Hp as ->.
      eexists. split.
      * apply (getSeriesNavigation_found tutorials p k j p
                 (Hmember _ _ Ej) Hk Ej eq_refl).
        apply (unique_slug_first_match tutorials k sorted p p j
                 Hnd Hsorted Ej eq_refl).
      * cbn [Nav.series Nav.current Nav.next]. fold sorted. rewrite Hi.
        split; [reflexivity|]. split; [lia | reflexivity].
Qed.

Lemma navigation_links_round_trip_witness :
  exists nav',
    getSeriesNavigation example_collection rust_ownership = Normal (Some nav') /\
    Nav.current nav' = 2 /\
    Nav.prev nav' = Obj rust_installation.
Proof.
  destruct (navigation_links_round_trip example_collection rust_installation
              (Nav.mk [rust_index; rust_installation; rust_ownership] 1
                      (Obj rust_index) (Obj rust_ownership)))
    as [H _].
  - simpl. repeat constructor; simpl; intuition discriminate.
  - simpl. tauto.
  - reflexivity.
  - destruct (H rust_ownership eq_refl) as [nav' [H1 [_ [H3 H4]]]].
    exists nav'. repeat split; assumption.
Defined.

(** X9.  The Navigator and the Organizer agree: for a tutorial of the list
    with a non-empty [series], the Organizer's result has the [Series] of
    this value, and the [series] of the Navigator's result is the
    [tutorials] list of that [Series]. *)
Theorem navigation_series_is_organizer_series (tutorials : list Tutorial)
  (tutorial : Tutorial) (k : string) :
  In tutorial tutorials ->
  Data.series (data tutorial) = Some k -> k <> EmptyString ->
  exists r s nav,
    getOrganizedTutorials tutorials = Normal r /\
    In s (series r) /\ Series.slug s = k /\
    getSeriesNavigation tutorials tutorial = Normal (Some nav) /\
    Nav.series nav = Series.tutorials s.
Proof.
  intros Hin Hs Hk.
  destruct (organizer_shape tutorials) as [ss [Hr _]].
  destruct (organizer_members _ _ Hr) as [_ [Hse Hkeys]].
  destruct (Hkeys k) as [s [Hsin Eslug]].
  { apply seriesKeys_spec. exists tutorial. tauto. }
  eexists. exists s. eexists.
  split; [exact Hr|]. split; [exact Hsin|]. split; [exact Eslug|].
  split.
  - apply (getSeriesNavigation_Some tutorials tutorial k Hs Hk).
  - cbn [Nav.series]. destruct (Hse s Hsin) as [_ Htut].
    rewrite Htut, Eslug. reflexivity.
Qed.

Lemma navigation_series_is_organizer_series_witness :
  exists r s nav,
    getOrganizedTutorials example_collection = Normal r /\
    In s (series r) /\ Series.slug s = seriesOf rust_index /\
    getSeriesNavigation example_collection rust_index = Normal (Some nav) /\
    Nav.series nav = Series.tutorials s.
Proof.
  apply (navigation_series_is_organizer_series example_collection rust_index).
  - simpl. tauto.
  - reflexivity.
  - discriminate.
Defined.

(** ** Independence of the order of the collection *)

Lemma filter_perm {A : Type} (p : A -> bool) (l1 l2 : list A) :
  Permutation l1 l2 -> Permutation (filter p l1) (filter p l2).
Proof.
  induction 1 as [|x l1 l2 _ IH|x y l|l1 l2 l3 _ IH1 _ IH2]; simpl.
  - constructor.
  - destruct (p x); [apply perm_skip|]; exact IH.
  - destruct (p x), (p y); try apply Permutation_refl. apply perm_swap.
  - eapply Permutation_trans; eassumption.
Qed.

Section UniqueKeys.
Context {A : Type}.
Variable cmp : A -> A -> Z.
Variable key : A -> Z.
Hypothesis cmp_key : forall a b, 0 < cmp a b <-> key b < key a.

Lemma filter_key_short (k : Z) (l : list A) :
  NoDup (map key l) -> (List.length (filter (keyIs key k) l) <= 1)%nat.
Proof.
  induction l as [|x l IH]; simpl; intros Hnd; [lia|].
  apply NoDup_cons_iff in Hnd. destruct Hnd as [Hx Hnd].
  specialize (IH Hnd). unfold keyIs at 1.
  destruct (Z.eqb_spec (key x) k) as [E | E]; [|exact IH].
  destruct (filter (keyIs key k) l) as [|y r] eqn:Ef; [simpl; lia|].
  exfalso. apply Hx.
  assert (Hy : In y (filter (keyIs key k) l)) by (rewrite Ef; left; reflexivity).
  apply filter_In in Hy. destruct Hy as [Hy Hk].
  unfold keyIs in Hk. apply Z.eqb_eq in Hk. rewrite E, <- Hk.
  apply in_map, Hy.
Qed.

Lemma filter_key_perm (k : Z) (l1 l2 : list A) :
  Permutation l1 l2 -> NoDup (map key l1) ->
  filter (keyIs key k) l1 = filter (keyIs key k) l2.
Proof.
  intros Hp Hnd.
  pose proof (filter_perm (keyIs key k) _ _ Hp) as Hf.
  pose proof (filter_key_short k l1 Hnd) as Hlen.
  destruct (filter (keyIs key k) l1) as [|x [|y r]]; simpl in Hlen; [| |lia].
  - apply Permutation_nil in Hf. symmetry. exact Hf.
  - apply Permutation_length_1_inv in Hf. symmetry. exact Hf.
Qed.

(** Elements with distinct keys are sorted the same way from any order. *)
Lemma sort_perm_unique_keys (l1 l2 : list A) :
  Permutation l1 l2 -> NoDup (map key l1) ->
  Array.sort cmp l1 = Array.sort cmp l2.
Proof.
  intros Hp Hnd. apply (stable_sorted_unique key).
  - apply (sort_key_sorted cmp key cmp_key).
  - apply (sort_key_sorted cmp key cmp_key).
  - intros k. rewrite !(sort_stable cmp key cmp_key).
    apply filter_key_perm; assumption.
Qed.
End UniqueKeys.

Lemma getSeriesTutorials_perm (ts1 ts2 : list Tutorial) (k : string) :
  Permutation ts1 ts2 ->
  NoDup (map effectiveOrder (filter (memberOf k) ts1)) ->
  getSeriesTutorials ts1 k = getSeriesTutorials ts2 k.
Proof.
  intros Hp Hnd. unfold getSeriesTutorials.
  apply (sort_perm_unique_keys bySeriesOrder effectiveOrder bySeriesOrder_key);
    [apply filter_perm, Hp | exact Hnd].
Qed.

(** X10.  When the members of a series have distinct [seriesOrder] values
    (a missing one counting as 0), [getSeriesTutorials] and the Navigator
    do not depend on the order in which the collection lists the
    tutorials. *)
Theorem navigation_order_independent (ts1 ts2 : list Tutorial)
  (tutorial : Tutorial) (k : string) :
  Permutation ts1 ts2 ->
  Data.series (data tutorial) = Some k ->
  NoDup (map effectiveOrder (filter (memberOf k) ts1)) ->
  getSeriesTutorials ts1 k = getSeriesTutorials ts2 k /\
  getSeriesNavigation ts1 tutorial = getSeriesNavigation ts2 tutorial.
Proof.
  intros Hp Hs Hnd.
  pose proof (getSeriesTutorials_perm ts1 ts2 k Hp Hnd) as E.
  split; [exact E|].
  destruct (String.eqb_spec k EmptyString) as [Ek | Ek].
  - subst k.
    assert (H : forall ts, getSeriesNavigation ts tutorial = Normal None).
    { intros ts. apply getSeriesNavigation_null. right. exact Hs. }
    rewrite !H. reflexivity.
  - rewrite !(getSeriesNavigation_Some _ tutorial k Hs Ek). cbv zeta.
    rewrite E. reflexivity.
Qed.

Lemma navigation_order_independent_witness :
  getSeriesTutorials example_collection (seriesOf rust_index) =
    getSeriesTutorials (rev example_collection) (seriesOf rust_index) /\
  getSeriesNavigation example_collection rust_installation =
    getSeriesNavigation (rev example_collection) rust_installation.
Proof.
  apply (navigation_order_independent example_collection
           (rev example_collection) rust_installation (seriesOf rust_index)).
  - apply Permutation_rev.
  - reflexivity.
  - simpl. repeat constructor; simpl; intuition discriminate.
Defined.






(** ** When the Organizer throws at run time *)

Lemma insertM_perm {A : Type} (cmp : A -> A -> completion Z) (x : A) (l r : list A) :
  Array.insertM cmp x l = Normal r -> Permutation r (x :: l).
Proof.
  revert r. induction l as [|y l IH]; intros r; simpl.
  - intros H. injection H as <-. apply Permutation_refl.
  - destruct (cmp x y) as [z|e]; cbn [bind]; [|discriminate].
    destruct (0 <? z).
    + destruct (Array.insertM cmp x l) as [r'|e]; cbn [bind]; [|discriminate].
      intros H. injection H as <-.
      eapply Permutation_trans; [apply perm_skip, IH; reflexivity | apply perm_swap].
    + intros H. injection H as <-. apply Permutation_refl.
Qed.

Lemma sortM_perm {A : Type} (cmp : A -> A -> completion Z) (l r : list A) :
  Array.sortM cmp l = Normal r -> Permutation r l.
Proof.
  revert r. induction l as [|x l IH]; intros r; simpl.
  - intros H. injection H as <-. constructor.
  - destruct (Array.sortM cmp l) as [s|e]; cbn [bind]; [|discriminate].
    intros H. apply insertM_perm in H.
    eapply Permutation_trans; [exact H | apply perm_skip, IH; reflexivity].
Qed.

(** A comparator that throws on certain elements makes the sort of two or
    more elements throw as soon as one of them is among these. *)
Lemma sortM_throws {A : Type} (cmp : A -> A -> completion Z) (bad : A -> Prop)
  (l : list A) :
  (forall a b, bad a \/ bad b -> cmp a b = Throw TypeError) ->
  (2 <= List.length l)%nat -> (exists a, In a l /\ bad a) ->
  Array.sortM cmp l = Throw TypeError.
Proof.
  intros Hbad. induction l as [|x l IH]; intros Hlen [a [Ha Hba]]; simpl in *;
    [lia|].
  destruct (Array.sortM cmp l) as [s|e] eqn:Es; cbn [bind];
    [|destruct e; reflexivity].
  pose proof (sortM_perm _ _ _ Es) as Hp.
  destruct s as [|y s'].
  { apply Permutation_nil in Hp. subst l. simpl in Hlen. lia. }
  simpl. destruct (cmp x y) as [z|e] eqn:Ec; cbn [bind];
    [|destruct e; reflexivity].
  exfalso.
  assert (Hx : ~ bad x).
  { intros H. rewrite (Hbad x y (or_introl H)) in Ec. discriminate. }
  assert (Hy : ~ bad y).
  { intros H. rewrite (Hbad x y (or_intror H)) in Ec. discriminate. }
  destruct Ha as [E | Ha]; [subst a; contradiction|].
  assert (Ha' : In a (y :: s')) by (eapply Permutation_in;
    [apply Permutation_sym, Hp | exact Ha]).
  destruct Ha' as [E | Ha']; [subst a; contradiction|].
  assert (Hl2 : (2 <= List.length l)%nat).
  { rewrite <- (Permutation_length Hp). destruct s'; [contradiction|].
    simpl. lia. }
  assert (Hno : Normal (y :: s') = Throw TypeError).
  { apply IH; [exact Hl2|]. exists a. split; assumption. }
  discriminate Hno.
Qed.

Lemma sortM_short {A : Type} (cmp : A -> A -> completion Z) (l : list A) :
  (List.length l <= 1)%nat -> Array.sortM cmp l = Normal l.
Proof.
  destruct l as [|x [|y l]]; simpl; intros H; [reflexivity | reflexivity | lia].
Qed.

Lemma Raw_series_never_throw (tutorials : list Raw.Tutorial) :
  exists ss,
    Raw.buildAll
      (fold_left Raw.groupStep (filter Raw.hasSeries tutorials) []) = Normal ss.
Proof.
  apply Raw_buildAll_total.
  generalize (filter Raw.hasSeries tutorials) as l.
  assert (H0 : Forall (fun e : string * list Raw.Tutorial => snd e <> []) [])
    by constructor.
  revert H0. generalize (@nil (string * list Raw.Tutorial)) as m.
  intros m Hm l. revert m Hm.
  induction l as [|t l IH]; intros m Hm; simpl; [exact Hm|].
  apply IH, Raw_groupStep_nonempty, Hm.
Qed.

Lemma Raw_byDateDesc_undated (a b : Raw.Tutorial) :
  (Raw.Data.dateUpdated (Raw.data a) = None /\
   Raw.Data.dateCreated (Raw.data a) = None) \/
  (Raw.Data.dateUpdated (Raw.data b) = None /\
   Raw.Data.dateCreated (Raw.data b) = None) ->
  Raw.byDateDesc a b = Throw TypeError.
Proof.
  unfold Raw.byDateDesc. intros [[H1 H2] | [H1 H2]]; rewrite H1, H2; simpl.
  - destruct (or_else _ _); reflexivity.
  - reflexivity.
Qed.

(** X12.  At run time, where a record can lack a property its type
    requires, the Organizer throws in one case only: there are two or more
    records without a (non-empty) [series] and one of them has neither
    [dateUpdated] nor [dateCreated]; the error is the [TypeError] of
    [getTime()] on [undefined].  In every other case, and in these only, it
    returns a result: a missing [slug], [category] or [difficulty] never
    makes it fail. *)
Theorem Raw_organizer_throws_iff (tutorials : list Raw.Tutorial) :
  (Raw.getOrganizedTutorials tutorials = Throw TypeError <->
   (2 <= List.length (filter (fun t => negb (Raw.hasSeries t)) tutorials))%nat /\
   exists t, In t tutorials /\ Raw.hasSeries t = false /\
             Raw.Data.dateUpdated (Raw.data t) = None /\
             Raw.Data.dateCreated (Raw.data t) = None) /\
  ((exists r, Raw.getOrganizedTutorials tutorials = Normal r) <->
   (List.length (filter (fun t => negb (Raw.hasSeries t)) tutorials) <= 1)%nat \/
   forall t, In t tutorials -> Raw.hasSeries t = false ->
             Raw.Data.dateUpdated (Raw.data t) <> None \/
             Raw.Data.dateCreated (Raw.data t) <> None).
Proof.
  set (alone := filter (fun t => negb (Raw.hasSeries t)) tutorials).
  set (undated := fun t : Raw.Tutorial =>
         match Raw.Data.dateUpdated (Raw.data t),
               Raw.Data.dateCreated (Raw.data t) with
         | None, None => true
         | _, _ => false
         end).
  assert (Hund : forall t, undated t = true <->
            Raw.Data.dateUpdated (Raw.data t) = None /\
            Raw.Data.dateCreated (Raw.data t) = None).
  { intros t. unfold undated.
    destruct (Raw.Data.dateUpdated (Raw.data t)),
             (Raw.Data.dateCreated (Raw.data t));
      split; try discriminate; try tauto; intros [H1 H2]; discriminate. }
  assert (Hthrow :
    (2 <= List.length alone)%nat ->
    (exists t, In t alone /\ undated t = true) ->
    Raw.getOrganizedTutorials tutorials = Throw TypeError).
  { intros Hlen Hex. unfold Raw.getOrganizedTutorials. fold alone.
    rewrite (sortM_throws Raw.byDateDesc (fun t => undated t = true) alone);
      [reflexivity | | exact Hlen | exact Hex].
    intros a b H. apply Raw_byDateDesc_undated.
    destruct H as [H | H]; [left | right]; apply Hund, H. }
  assert (Hnormal :
    ((List.length alone <= 1)%nat \/ existsb undated alone = false) ->
    exists r, Raw.getOrganizedTutorials tutorials = Normal r).
  { intros Hcase.
    assert (Hst : exists st, Array.sortM Raw.byDateDesc alone = Normal st).
    { destruct Hcase as [Hshort | Hnone].
      - exists alone. apply sortM_short, Hshort.
      - destruct (sortM_total Raw.byDateDesc alone) as [st [Hst _]];
          [|exists st; exact Hst].
        assert (Hd : forall a, In a alone ->
                  exists d, or_else (Raw.Data.dateUpdated (Raw.data a))
                                    (Raw.Data.dateCreated (Raw.data a)) = Some d).
        { intros a Ha.
          assert (Hu : undated a = false).
          { destruct (undated a) eqn:Eu; [|reflexivity].
            assert (existsb undated alone = true)
              by (apply existsb_exists; exists a; tauto).
            congruence. }
          unfold undated in Hu.
          destruct (Raw.Data.dateUpdated (Raw.data a)) as [d|]; simpl;
            [eexists; reflexivity|].
          destruct (Raw.Data.dateCreated (Raw.data a)) as [d|];
            [eexists; reflexivity | discriminate]. }
        intros a b Ha Hb. unfold Raw.byDateDesc.
        destruct (Hd a Ha) as [da Eda]. destruct (Hd b Hb) as [db Edb].
        rewrite Eda, Edb. eexists. reflexivity. }
    destruct Hst as [st Hst]. unfold Raw.getOrganizedTutorials. fold alone.
    rewrite Hst. cbn [bind].
    destruct (Raw_series_never_throw tutorials) as [ss Hss].
    rewrite Hss. cbn [bind]. eexists. reflexivity. }
  assert (Hdec : ((2 <= List.length alone)%nat /\ existsb undated alone = true) \/
                 ((List.length alone <= 1)%nat \/ existsb undated alone = false)).
  { destruct (existsb undated alone); [|right; right; reflexivity].
    destruct (le_lt_dec 2 (List.length alone)); [left; split; [lia | reflexivity]|].
    right. left. lia. }
  split.
  - split.
    + intros Hth. destruct Hdec as [[Hlen Hex] | Hcase].
      * split; [exact Hlen|]. apply existsb_exists in Hex.
        destruct Hex as [t [Ht Hu]]. exists t.
        apply filter_In in Ht. destruct Ht as [Ht Hs].
        apply negb_true_iff in Hs. apply Hund in Hu. tauto.
      * destruct (Hnormal Hcase) as [r Hr]. congruence.
    + intros [Hlen [t [Ht [Hs [H1 H2]]]]]. apply Hthrow; [exact Hlen|].
      exists t. split.
      * apply filter_In. split; [exact Ht|]. apply negb_true_iff, Hs.
      * apply Hund. tauto.
  - split.
    + intros [r Hr]. destruct Hdec as [[Hlen Hex] | [Hshort | Hnone]].
      * rewrite Hthrow in Hr; [discriminate | exact Hlen|].
        apply existsb_exists, Hex.
      * left. exact Hshort.
      * right. intros t Ht Hs.
        assert (Hu : undated t = false).
        { destruct (undated t) eqn:Eu; [|reflexivity].
          assert (existsb undated alone = true).
          { apply existsb_exists. exists t. split; [|exact Eu].
            apply filter_In. split; [exact Ht|]. apply negb_true_iff, Hs. }
          congruence. }
        unfold undated in Hu.
        destruct (Raw.Data.dateUpdated (Raw.data t)); [left; discriminate|].
        destruct (Raw.Data.dateCreated (Raw.data t)); [right; discriminate|].
        discriminate.
    + intros [Hshort | Hdated]; apply Hnormal; [left; exact Hshort|].
      right. apply not_true_is_false. intros Hex.
      apply existsb_exists in Hex. destruct Hex as [t [Ht Hu]].
      apply filter_In in Ht. destruct Ht as [Ht Hs].
      apply negb_true_iff in Hs. apply Hund in Hu. destruct Hu as [H1 H2].
      destruct (Hdated t Ht Hs); contradiction.
Qed.

(** * The pages *)




Lemma startsWith_refl (s : string) : startsWith s s = true.
Proof.
  induction s as [|c s IH]; simpl; [reflexivity|].
  rewrite Ascii.eqb_refl. exact IH.
Qed.

(** The test for equality in the resolution of a path changes nothing. *)
Lemma equal_or_startsWith (a b : string) :
  String.eqb a b || startsWith a b = startsWith a b.
Proof.
  destruct (String.eqb_spec a b) as [E | E]; [|reflexivity].
  subst b. rewrite startsWith_refl. reflexivity.
Qed.

Lemma find_same {A : Type} (p q : A -> bool) (l : list A) :
  (forall x, p x = q x) -> List.find p l = List.find q l.
Proof.
  intros H. induction l as [|x l IH]; simpl; [reflexivity|].
  rewrite H, IH. reflexivity.
Qed.

Lemma find_of_first {A : Type} (p : A -> bool) (before after : list A) (x : A) :
  Forall (fun y => p y = false) before -> p x = true ->
  List.find p (before ++ x :: after) = Some x.
Proof.
  intros Hb Hx. induction Hb as [|y before Hy _ IH]; simpl.
  - rewrite Hx. reflexivity.
  - rewrite Hy. exact IH.
Qed.

Lemma filterBoolean_In {A : Type} (l : list (option A)) (x : A) :
  In x (Array.filterBoolean l) <-> In (Some x) l.
Proof.
  induction l as [|[y|] l IH]; simpl; [tauto | |].
  - rewrite IH. split; intros [H | H]; auto; left; congruence.
  - rewrite IH. split; [auto|]. intros [H | H]; [discriminate | exact H].
Qed.

Lemma filterBoolean_length {A : Type} (l : list (option A)) :
  (List.length (Array.filterBoolean l) <= List.length l)%nat.
Proof.
  induction l as [|[y|] l IH]; simpl; lia.
Qed.

(** X14.  A learning path resolves each slug it lists to the first
    tutorial of the collection whose slug starts with it; an exact match
    later in the collection is not preferred, and a slug that no tutorial
    slug starts with is dropped.  The path page therefore shows at most as
    many tutorials as the count on the path card. *)
Theorem path_resolution (allTutorials : list Tutorial) (path : Path.t) :
  Array.length (pathTutorials allTutorials path) <= tutorialCount path /\
  forall t,
    In t (pathTutorials allTutorials path) <->
    exists ref before after,
      In ref (Path.tutorials path) /\
      allTutorials = before ++ t :: after /\
      startsWith (slug t) ref = true /\
      Forall (fun u => startsWith (slug u) ref = false) before.
Proof.
  unfold pathTutorials, tutorialCount, Array.length. split.
  - pose proof (filterBoolean_length
                  (map (fun slug' =>
                          Array.find (fun t => String.eqb (slug t) slug'
                                               || startsWith (slug t) slug')
                                     allTutorials)
                       (Path.tutorials path))) as H.
    rewrite length_map in H. lia.
  - intros t. rewrite filterBoolean_In, in_map_iff. unfold Array.find. split.
    + intros [ref [Hf Href]].
      rewrite (find_same _ (fun u => startsWith (slug u) ref)) in Hf
        by (intros u; apply equal_or_startsWith).
      destruct (find_first _ _ _ Hf) as [before [after [E [Hb Ht]]]].
      exists ref, before, after. tauto.
    + intros [ref [before [after [Href [E [Ht Hb]]]]]].
      exists ref. split; [|exact Href].
      rewrite (find_same _ (fun u => startsWith (slug u) ref))
        by (intros u; apply equal_or_startsWith).
      rewrite E. apply find_of_first; assumption.
Qed.

(** X15.  Round trip of a path: when no slug of the collection starts with
    the slug of another tutorial of the collection, a path that lists the
    slugs of tutorials of the collection resolves to exactly these
    tutorials, in the order of the path. *)
Theorem path_resolution_exact (allTutorials chosen : list Tutorial)
  (path : Path.t) :
  (forall t, In t chosen -> In t allTutorials) ->
  (forall a b, In a allTutorials -> In b allTutorials ->
               startsWith (slug a) (slug b) = true -> a = b) ->
  Path.tutorials path = map slug chosen ->
  pathTutorials allTutorials path = chosen.
Proof.
  intros Hsub Hfree Hp. unfold pathTutorials. rewrite Hp. clear Hp.
  induction chosen as [|t chosen IH]; [reflexivity|].
  cbn [map].
  assert (Hf : Array.find (fun u => String.eqb (slug u) (slug t)
                                    || startsWith (slug u) (slug t))
                          allTutorials = Some t).
  { unfold Array.find.
    assert (Ht : In t allTutorials) by (apply Hsub; left; reflexivity).
    destruct (List.find _ allTutorials) as [u|] eqn:Ef.
    - apply find_some in Ef. destruct Ef as [Hu Hpu].
      rewrite equal_or_startsWith in Hpu.
      f_equal. apply Hfree; assumption.
    - exfalso. pose proof (find_none _ _ Ef t Ht) as Hn. simpl in Hn.
      rewrite equal_or_startsWith, startsWith_refl in Hn. discriminate. }
  rewrite Hf. cbn [Array.filterBoolean]. f_equal.
  apply IH. intros u Hu. apply Hsub. right. exact Hu.
Qed.

Lemma path_resolution_exact_witness :
  pathTutorials [docker_basics; compose_intro]
                (Path.mk EmptyString EmptyString
                         (map slug [compose_intro; docker_basics]) None) =
  [compose_intro; docker_basics].
Proof.
  apply (path_resolution_exact [docker_basics; compose_intro]
           [compose_intro; docker_basics]).
  - simpl. tauto.
  - intros a b [Ea | [Ea | []]] [Eb | [Eb | []]]; subst a b;
      try reflexivity; intros H; discriminate H.
  - reflexivity.
Defined.

Lemma getSeriesNavigation_listed (ts : list Tutorial) (t : Tutorial) (k : string) :
  NoDup (map slug ts) -> In t ts ->
  Data.series (data t) = Some k -> k <> EmptyString ->
  exists i nav,
    nth_error (getSeriesTutorials ts k) i = Some t /\
    getSeriesNavigation ts t = Normal (Some nav) /\
    Nav.series nav = getSeriesTutorials ts k /\
    Nav.current nav = Z.of_nat i.
Proof.
  intros Hnd Hin Hs Hk.
  assert (Hmem : In t (getSeriesTutorials ts k))
    by (apply getSeriesTutorials_In; tauto).
  apply In_nth_error in Hmem. destruct Hmem as [i Hi].
  exists i. eexists. split; [exact Hi|]. split.
  - apply (getSeriesNavigation_found ts t k i t Hs Hk Hi eq_refl).
    apply (unique_slug_first_match ts k _ t t i Hnd); [|exact Hi | reflexivity].
    apply sortedMembers_iff. reflexivity.
  - split; reflexivity.
Qed.

(** X16.  In a production build, with unique slugs, every tutorial of the
    collection that has a non-empty [series] gets a page with the series
    layout, drafts included, and the series shown on it holds no draft.  On
    the page of a tutorial that is not a draft [current] is the position of
    this tutorial in the series; on the page of a draft [current] is [-1]
    and [prev] is [null]. *)
Theorem series_pages_in_production (collection : list Tutorial)
  (tutorial : Tutorial) :
  NoDup (map slug collection) ->
  In tutorial collection ->
  truthy (Data.series (data tutorial)) = true ->
  In (mkStaticPath (slug tutorial) tutorial) (getStaticPaths collection) /\
  exists nav,
    tutorialPage true collection tutorial = Normal (SeriesLayout, Some nav) /\
    (forall m, In m (Nav.series nav) -> Data.status (data m) <> draft) /\
    (Data.status (data tutorial) <> draft ->
     0 <= Nav.current nav /\
     nth_error (Nav.series nav) (Z.to_nat (Nav.current nav)) = Some tutorial) /\
    (Data.status (data tutorial) = draft ->
     Nav.current nav = -1 /\ Nav.prev nav = Null).
Proof.
  intros Hnd Hin Ht. split.
  { unfold getStaticPaths.
    apply (in_map (fun t => mkStaticPath (slug t) t)), Hin. }
  destruct (hasSeries_Some tutorial Ht) as [Hs Hk].
  set (k := seriesOf tutorial) in *.
  set (published := getPublishedTutorials true collection).
  assert (Hpub : forall m, In m published <->
                           In m collection /\ Data.status (data m) <> draft)
    by apply getPublishedTutorials_prod.
  assert (Hno : forall m, In m (getSeriesTutorials published k) ->
                          Data.status (data m) <> draft).
  { intros m Hm. apply getSeriesTutorials_In in Hm. apply Hpub. tauto. }
  unfold tutorialPage. fold published.
  destruct (Status_eqb (Data.status (data tutorial)) draft) eqn:Ed.
  - assert (Edraft : Data.status (data tutorial) = draft)
      by (destruct (Data.status (data tutorial)); try discriminate; reflexivity).
    assert (Hall : Forall (fun m => slug m <> slug tutorial)
                          (getSeriesTutorials published k)).
    { apply Forall_forall. intros m Hm Eslug.
      apply getSeriesTutorials_In in Hm. destruct Hm as [Hm _].
      apply Hpub in Hm. destruct Hm as [Hm Hst].
      assert (m = tutorial) by (apply (unique_slug_eq collection); assumption).
      subst m. contradiction. }
    rewrite (getSeriesNavigation_missing published tutorial k Hs Hk Hall).
    cbn [bind]. eexists. split; [reflexivity|].
    cbn [Nav.series Nav.current Nav.prev].
    split; [exact Hno|]. split; [intros H; contradiction|].
    intros _. split; reflexivity.
  - assert (Hnd' : Data.status (data tutorial) <> draft)
      by (intros E; rewrite E in Ed; discriminate).
    destruct (getSeriesNavigation_listed published tutorial k)
      as [i [nav [Hi [Hnav [Hser Hcur]]]]]; try assumption.
    { apply unique_slugs_filter, Hnd. }
    { apply Hpub. tauto. }
    rewrite Hnav. cbn [bind]. exists nav. split; [reflexivity|].
    rewrite Hser, Hcur, Nat2Z.id.
    split; [exact Hno|]. split; [intros _; split; [lia | exact Hi]|].
    intros E. contradiction.
Qed.

Lemma series_pages_in_production_witness :
  exists nav,
    tutorialPage true example_collection rust_ownership =
      Normal (SeriesLayout, Some nav) /\
    Nav.current nav = -1 /\ Nav.prev nav = Null.
Proof.
  destruct (series_pages_in_production example_collection rust_ownership)
    as [_ [nav [H1 [_ [_ H2]]]]].
  - simpl. repeat constructor; simpl; intuition discriminate.
  - simpl. tauto.
  - reflexivity.
  - exists nav. split; [exact H1|]. apply H2. reflexivity.
Defined.

(** X17.  Everything the Organizer lists can be selected by the lists it
    returns for filtering: the [category] of every [Series] and of every
    standalone tutorial is in [categories], and every tag of a standalone
    tutorial or of a member of a [Series] is in [tags]. *)
Theorem listed_entries_are_filterable (tutorials : list Tutorial) :
  exists r,
    getOrganizedTutorials tutorials = Normal r /\
    (forall s, In s (series r) -> In (Series.category s) (categories r)) /\
    (forall t, In t (standalone r) ->
               In (Data.category (data t)) (categories r)) /\
    (forall t g, In t (standalone r) -> In g (Data.tags (data t)) ->
                 In g (tags r)) /\
    (forall s t g, In s (series r) -> In t (Series.tutorials s) ->
                   In g (Data.tags (data t)) -> In g (tags r)).
Proof.
  destruct (getOrganizedTutorials_steps tutorials) as [ss [Hr HF]].
  destruct (organizer_shape tutorials) as [ss' [Hr' _]].
  eexists. split; [exact Hr'|].
  destruct (organizer_members _ _ Hr') as [Hst [Hse _]].
  cbn [series standalone categories tags] in *.
  destruct (getCategories_spec tutorials) as [_ Hc].
  destruct (getTags_spec tutorials) as [_ Hg].
  assert (Ess : ss' = ss).
  { rewrite Hr in Hr'. injection Hr' as E _ _. symmetry. exact E. }
  subst ss'.
  split; [|split; [|split]].
  - intros s Hs. destruct (series_built _ _ _ s HF Hs) as [_ Hb].
    apply buildSeries_fields in Hb.
    destruct Hb as [_ [Ht [_ [index [Hi [_ [_ Hcat]]]]]]].
    rewrite <- Ht in Hi. apply designate_spec in Hi.
    assert (Hin : In index (Series.tutorials s)).
    { destruct Hi as [[before [after [E _]]] | [_ E]].
      - rewrite E. apply in_elt.
      - destruct (Series.tutorials s); [discriminate|].
        injection E as <-. left. reflexivity. }
    destruct (Hse s Hs) as [_ Htut]. rewrite Htut in Hin.
    apply getSeriesTutorials_In in Hin.
    apply Hc. exists index. rewrite Hcat. tauto.
  - intros t Ht. apply Hst in Ht. apply Hc. exists t. tauto.
  - intros t g Ht Hin. apply Hst in Ht. apply Hg. exists t. tauto.
  - intros s t g Hs Ht Hin. destruct (Hse s Hs) as [_ Htut].
    rewrite Htut in Ht. apply getSeriesTutorials_In in Ht.
    apply Hg. exists t. tauto.
Qed.
